(** * wordle-archive: the dashboard of [frontend/src/App.vue]

    A shallow embedding of the script block of [App.vue] and of the
    [Game] type of [frontend/src/types/game.ts].  Values that arrive
    over HTTP are untyped at run time, so response bodies are objects
    keyed by property name; the records they carry follow the declared
    [Game] type. *)

From stdpp Require Import gmap strings list pretty.
From Stdlib Require Import Ascii ZArith QArith Qabs Qround Qpower Qcanon Lia Lqa.
From Stdlib Require Import Floats.SpecFloat.

Local Open Scope Z_scope.
Local Open Scope string_scope.

(** ** The data model of [types/game.ts] *)

Inductive Status := WIN | FAIL | IN_PROGRESS.

Record BoardState := mkBoardState {
  row0 : string; row1 : string; row2 : string;
  row3 : string; row4 : string; row5 : string
}.

(** [currentRowIndex] is declared [1 | 2 | 3 | 4 | 5 | 6]; TypeScript does
    not check that at run time, so the field is a number here and the
    declared range is the predicate [row_index_typed] below. *)
Record GameData := mkGameData {
  boardState : BoardState;
  currentRowIndex : Z;
  hardMode : bool;
  status : Status
}.

(** [_id] (an [ObjectId]) and [fetched_at] (a [Date]) arrive in the JSON
    of the response as strings and are never converted. *)
Record Game := mkGame {
  _id : string;
  user_id : string;
  print_date : string;
  puzzle_id : Z;
  solution : string;
  game_data : GameData;
  fetched_at : string
}.

Definition row_index_typed (g : Game) : Prop :=
  1 <= currentRowIndex (game_data g) <= 6.

(** The range is needed for the games that are won only: the row of
    another game is never used in arithmetic. *)
Definition win_row_typed (g : Game) : Prop :=
  status (game_data g) = WIN -> row_index_typed g.

#[global] Instance Status_eq_dec : EqDecision Status.
Proof. solve_decision. Defined.
#[global] Instance BoardState_eq_dec : EqDecision BoardState.
Proof. solve_decision. Defined.
#[global] Instance GameData_eq_dec : EqDecision GameData.
Proof. solve_decision. Defined.
#[global] Instance Game_eq_dec : EqDecision Game.
Proof. solve_decision. Defined.

(** ** JavaScript values held by the refs and by response bodies *)

Inductive value :=
| VUndefined
| VNull
| VNumber (z : Z)
| VString (s : string)
| VGames (gs : list Game).

#[global] Instance value_eq_dec : EqDecision value.
Proof. solve_decision. Defined.

(** [a === b] *)
Definition strict_eq (a b : value) : bool := bool_decide (a = b).

(** [response.data]: a JSON object.  Reading a property that the object
    does not have gives [undefined]. *)
Definition prop (o : gmap string value) (k : string) : value :=
  default VUndefined (o !! k).

(** The conversion a template literal applies to [${v}]. *)
Definition to_string (v : value) : string :=
  match v with
  | VUndefined => "undefined"
  | VNull => "null"
  | VNumber z => pretty z
  | VString s => s
  | VGames gs => String.concat "," (map (fun _ => "[object Object]") gs)
  end.

(** ** The reactive state of the component *)

Record AppState := mkAppState {
  games : value;
  userId : value;
  loading : bool;
  syncStatus : string;
  lastSynced : value
}.

Definition initial_state : AppState :=
  {| games := VGames []; userId := VString ""; loading := true;
     syncStatus := ""; lastSynced := VString "" |}.

Definition set_loading (b : bool) (st : AppState) : AppState :=
  {| games := games st; userId := userId st; loading := b;
     syncStatus := syncStatus st; lastSynced := lastSynced st |}.

Definition set_syncStatus (s : string) (st : AppState) : AppState :=
  {| games := games st; userId := userId st; loading := loading st;
     syncStatus := s; lastSynced := lastSynced st |}.

(** ** [fetchGames]

    An async function is split at its [await]: the part that runs before
    the request is sent, and the continuation for each way the request
    can settle. *)

Inductive settled :=
| Resolved (data : gmap string value)
| Rejected (message : string).

Definition fetchGames_start (st : AppState) : AppState := set_loading true st.

Definition fetchGames_settle (r : settled) (st : AppState) : AppState :=
  match r with
  | Resolved data =>
      set_loading false
        {| games := prop data "games";
           userId := prop data "user_id";
           loading := loading st;
           syncStatus := syncStatus st;
           lastSynced := prop data "last_synced_at" |}
  | Rejected _ => set_loading false st
  end.

(** ** [syncData] *)

Definition msg_syncing : string := "Syncing...".
Definition msg_up_to_date : string := "Archive already up to date!".
Definition msg_no_ids : string := "No puzzle IDs found.".
Definition msg_none_added : string := "Sync executed, no new puzzles added.".
Definition msg_added (added : value) : string :=
  "Sync successful! Added " ++ to_string added
    ++ " new puzzle records. Fetching new data...".
Definition msg_failed (message : string) : string := "Sync failed: " ++ message.

Definition syncData_start (st : AppState) : AppState :=
  set_syncStatus msg_syncing st.

(** The continuation of [syncData] once the POST settles: the new state,
    and whether the chain reached [await fetchGames()] (which runs
    [fetchGames] up to its own request). *)
Definition syncData_settle (r : settled) (st : AppState) : AppState * bool :=
  match r with
  | Resolved data =>
      if strict_eq (prop data "status") (VString "already_up_to_date") then
        (set_syncStatus msg_up_to_date st, false)
      else if strict_eq (prop data "status") (VString "no_ids_found") then
        (set_syncStatus msg_no_ids st, false)
      else if strict_eq (prop data "added") (VNumber 0) then
        (set_syncStatus msg_none_added st, false)
      else
        (fetchGames_start (set_syncStatus (msg_added (prop data "added")) st), true)
  | Rejected message => (set_syncStatus (msg_failed message) st, false)
  end.

(** The message a fulfilled response leaves in [syncStatus]. *)
Definition sync_message (data : gmap string value) : string :=
  syncStatus (syncData_settle (Resolved data) initial_state).1.

(** ** The page: the component together with its pending requests

    The template binds the button as
    [<button @click="syncData" :disabled="syncStatus === 'Syncing...'">]. *)

Definition sync_button_disabled (st : AppState) : bool :=
  bool_decide (syncStatus st = "Syncing...").

Definition sync_button_label (st : AppState) : string :=
  if bool_decide (syncStatus st = "Syncing...") then "Syncing..."
  else "Sync Archive Data".

Record Page := mkPage {
  app : AppState;
  syncs_in_flight : nat;     (* POST /sync requests not yet settled *)
  fetches_in_flight : nat    (* GET /games requests not yet settled *)
}.

(** [onMounted] calls [fetchGames]. *)
Definition mounted_page : Page :=
  {| app := fetchGames_start initial_state;
     syncs_in_flight := 0; fetches_in_flight := 1 |}.

Inductive event :=
| ClickSync
| SyncSettles (r : settled)
| FetchSettles (r : settled).

(** One turn of the event loop.  A disabled button dispatches no click, so
    the handler does not run; a request can only settle if it is pending. *)
Definition step (e : event) (p : Page) : option Page :=
  match e with
  | ClickSync =>
      if sync_button_disabled (app p) then Some p
      else Some {| app := syncData_start (app p);
                   syncs_in_flight := S (syncs_in_flight p);
                   fetches_in_flight := fetches_in_flight p |}
  | SyncSettles r =>
      match syncs_in_flight p with
      | O => None
      | S n =>
          let '(st, refetch) := syncData_settle r (app p) in
          Some {| app := st; syncs_in_flight := n;
                  fetches_in_flight :=
                    if refetch then S (fetches_in_flight p)
                    else fetches_in_flight p |}
      end
  | FetchSettles r =>
      match fetches_in_flight p with
      | O => None
      | S n =>
          Some {| app := fetchGames_settle r (app p);
                  syncs_in_flight := syncs_in_flight p;
                  fetches_in_flight := n |}
      end
  end.

Fixpoint run (trace : list event) (p : Page) : option Page :=
  match trace with
  | [] => Some p
  | e :: rest => match step e p with Some p' => run rest p' | None => None end
  end.

(** *** Several pages of one user

    Every tab that shows the dashboard mounts an instance of the component
    with refs of its own, [syncStatus] among them; the requests of all of
    them go to the same [/api/sync], which takes no parameter.  An event
    happens in one tab and leaves the others as they are. *)
Definition step_tab (tab : nat) (e : event) (tabs : list Page) : option (list Page) :=
  match tabs !! tab with
  | Some p =>
      match step e p with
      | Some p' => Some (<[tab := p']> tabs)
      | None => None
      end
  | None => None
  end.

Fixpoint run_tabs (trace : list (nat * event)) (tabs : list Page) : option (list Page) :=
  match trace with
  | [] => Some tabs
  | (tab, e) :: rest =>
      match step_tab tab e tabs with
      | Some tabs' => run_tabs rest tabs'
      | None => None
      end
  end.

(** The [POST /sync] requests of the user that have not settled. *)
Definition user_syncs_in_flight (tabs : list Page) : nat :=
  sum_list_with syncs_in_flight tabs.

(** Modelled from the spec: the summary returned by [POST /sync].  The
    backend that builds it is not part of the sources; section 4.5 gives
    the linear state machine and its terminal labels, section 6 says the
    response carries these labels in [status] and the count in [added]. *)
Inductive Terminal := ALREADY_UP_TO_DATE | NO_IDS_FOUND | NO_NEW_DATA | DONE.

(** Modelled from the spec: the label of a terminal state, as section 4.5
    writes it. *)
Definition terminal_label (t : Terminal) : string :=
  match t with
  | ALREADY_UP_TO_DATE => "ALREADY_UP_TO_DATE"
  | NO_IDS_FOUND => "NO_IDS_FOUND"
  | NO_NEW_DATA => "NO_NEW_DATA"
  | DONE => "DONE"
  end.

(** Modelled from the spec: the orchestrator's terminal state, from the
    number of dates in the range, of puzzle ids resolved and of records
    merged: [START → RESOLVE_RANGE → (empty? → ALREADY_UP_TO_DATE) →
    LOOKUP_IDS → (none resolved? → NO_IDS_FOUND) → FETCH_BATCHES → MERGE →
    (zero merged? → NO_NEW_DATA) → DONE]. *)
Definition orchestrate (dates resolved merged : nat) : Terminal * nat :=
  match dates, resolved, merged with
  | O, _, _ => (ALREADY_UP_TO_DATE, O)
  | _, O, _ => (NO_IDS_FOUND, O)
  | _, _, O => (NO_NEW_DATA, O)
  | _, _, n => (DONE, n)
  end.

(** Modelled from the spec: the response body [{ status, added }] (the
    optional [errors] list is left out). *)
Definition sync_summary (o : Terminal * nat) : gmap string value :=
  {[ "status" := VString (terminal_label o.1);
     "added" := VNumber (Z.of_nat o.2) ]}.

(** Modelled from the spec: the terminal labels spelled as the client
    tests them; how NO_NEW_DATA and DONE are spelled, which the client
    never looks at, is left open. *)
Definition wire_label (no_new_data done : string) (t : Terminal) : string :=
  match t with
  | ALREADY_UP_TO_DATE => "already_up_to_date"
  | NO_IDS_FOUND => "no_ids_found"
  | NO_NEW_DATA => no_new_data
  | DONE => done
  end.

(** Modelled from the spec: the response body with that spelling. *)
Definition wire_summary (no_new_data done : string) (o : Terminal * nat)
    : gmap string value :=
  {[ "status" := VString (wire_label no_new_data done o.1);
     "added" := VNumber (Z.of_nat o.2) ]}.

(** Modelled from the spec: the body of [GET /games],
    [{ games: GameRecord[], lastSyncedAt: timestamp|null, userId: string }]. *)
Definition games_body (gs : list Game) (lastSyncedAt : option string)
    (uid : string) : gmap string value :=
  {[ "games" := VGames gs;
     "lastSyncedAt" := from_option VString VNull lastSyncedAt;
     "userId" := VString uid ]}.

(** ** JavaScript numbers

    A Number is an IEEE 754 binary64 value: a NaN, an infinity or a
    rational of the form [m * 2^e] with [|m| < 2^53] and [-1074 <= e].
    Every arithmetic result is the exact rational result rounded to the
    nearest such value, ties to even.  Negative zero is identified with
    zero (the operands of this component are counts and row indices). *)

Inductive number :=
| NaN
| Infinity (negative : bool)
| Finite (q : Q).

(** [2^e] for any integer [e]. *)
Definition pow2 (e : Z) : Q := Qpower 2 e.

(** [floor (log2 |q|)] for [q] not zero. *)
Definition ilog2 (q : Q) : Z :=
  let e0 := (Z.log2 (Z.abs (Qnum q)) - Z.log2 (Zpos (Qden q)))%Z in
  if Qle_bool (pow2 e0) (Qabs q) then e0 else (e0 - 1)%Z.

(** Round to the nearest integer, ties to even. *)
Definition round_half_even (q : Q) : Z :=
  let f := Qfloor q in
  match (q - inject_Z f ?= 1 # 2)%Q with
  | Lt => f
  | Gt => (f + 1)%Z
  | Eq => if Z.even f then f else (f + 1)%Z
  end.

(** The exponent of the unit in the last place of the binary64 value
    nearest to [q]: 53 significant bits, never below [2^-1074]. *)
Definition ulp_exponent (q : Q) : Z := Z.max (ilog2 q - 52) (-1074).

Definition is_negative (q : Q) : bool := negb (Qle_bool 0 q).

Definition round64 (q : Q) : number :=
  if Qeq_bool q 0 then Finite 0
  else
    let e := ulp_exponent q in
    let r := (inject_Z (round_half_even (q / pow2 e)) * pow2 e)%Q in
    if Qle_bool (pow2 1024) (Qabs r) then Infinity (is_negative q)
    else Finite (Qred r).

(** An integer as a Number. *)
Definition of_Z (z : Z) : number := round64 (inject_Z z).

(** [x + y] *)
Definition number_add (x y : number) : number :=
  match x, y with
  | NaN, _ | _, NaN => NaN
  | Infinity a, Infinity b => if eqb a b then Infinity a else NaN
  | Infinity a, Finite _ | Finite _, Infinity a => Infinity a
  | Finite a, Finite b => round64 (a + b)
  end.

(** [x * y] *)
Definition number_mul (x y : number) : number :=
  match x, y with
  | NaN, _ | _, NaN => NaN
  | Infinity a, Infinity b => Infinity (xorb a b)
  | Infinity a, Finite q | Finite q, Infinity a =>
      if Qeq_bool q 0 then NaN else Infinity (xorb a (is_negative q))
  | Finite a, Finite b => round64 (a * b)
  end.

(** [x / y] *)
Definition number_div (x y : number) : number :=
  match x, y with
  | NaN, _ | _, NaN => NaN
  | Infinity _, Infinity _ => NaN
  | Infinity a, Finite q => Infinity (xorb a (is_negative q))
  | Finite _, Infinity _ => Finite 0
  | Finite a, Finite b =>
      if Qeq_bool b 0 then
        if Qeq_bool a 0 then NaN else Infinity (is_negative a)
      else round64 (a / b)
  end.

(** The digits of [n], padded on the left with zeros to [width]. *)
Definition pad_zeros (width : nat) (s : string) : string :=
  String.concat "" (replicate (width - String.length s) "0") ++ s.

(** [x.toFixed(f)].  For [|x| >= 10^21] the method falls back on the
    exponent notation of [Number::toString], which is not modelled: the
    result is [None] there. *)
Definition toFixed (f : nat) (x : number) : option string :=
  match x with
  | NaN => Some "NaN"
  | Infinity false => Some "Infinity"
  | Infinity true => Some "-Infinity"
  | Finite q =>
      if Qle_bool (inject_Z (10 ^ 21)) (Qabs q) then None
      else
        let scale := (10 ^ Z.of_nat f)%Z in
        let n := Qfloor (Qabs q * inject_Z scale + (1 # 2)) in
        let sign := if is_negative q then "-" else "" in
        match f with
        | O => Some (sign ++ pretty n)
        | _ => Some (sign ++ pretty (n / scale)%Z ++ "."
                       ++ pad_zeros f (pretty (n mod scale)%Z))
        end
  end.

(** ** The summary statistics (the [computed] values over [games.value]) *)

Definition totalGames (gs : list Game) : nat := length gs.

Definition winningGames (gs : list Game) : list Game :=
  filter (fun game => status (game_data game) = WIN) gs.

Definition totalWins (gs : list Game) : nat := length (winningGames gs).

(** [array.length] as a Number. *)
Definition length_number (n : nat) : number := of_Z (Z.of_nat n).

(** [winPercentage]; [None] only where [toFixed] is not modelled. *)
Definition winPercentage (gs : list Game) : option string :=
  if bool_decide (totalGames gs = O) then Some "0.00%"
  else
    let percentage :=
      number_mul
        (number_div (length_number (totalWins gs)) (length_number (totalGames gs)))
        (of_Z 100) in
    (fun s => s ++ "%") <$> toFixed 2 percentage.

(** [winningGames.value.reduce((sum, game) => sum + ...currentRowIndex, 0)] *)
Definition totalTurns (gs : list Game) : number :=
  foldl (fun sum game => number_add sum (of_Z (currentRowIndex (game_data game))))
        (of_Z 0) (winningGames gs).

Definition averageTurns (gs : list Game) : option string :=
  if bool_decide (totalWins gs = O) then Some "N/A"
  else
    let average := number_div (totalTurns gs) (length_number (totalWins gs)) in
    toFixed 2 average.

(** ** The chart

    [Date] belongs to the platform: what [new Date(s).getMonth()] and
    [new Date(s).toLocaleString('default', { month: 'short', year:
    'numeric' })] give for a string [s] depends on the time zone and the
    locale of the browser, so both are parameters. *)

(** The result of [getMonth()]: an index [0..11], or NaN for an invalid
    date. *)
Inductive month_value :=
| MonthNaN
| MonthIndex (m : nat).

Class DateEnv := {
  getMonth : string -> month_value;
  month_year_label : string -> string
}.

(** [currentMonth !== lastMonth], with [lastMonth] initially [null]
    ([None]).  NaN is different from everything, itself included. *)
Definition month_differs (currentMonth : month_value)
    (lastMonth : option month_value) : bool :=
  match currentMonth, lastMonth with
  | MonthIndex a, Some (MonthIndex b) => negb (Nat.eqb a b)
  | _, _ => true
  end.

Record Dataset := mkDataset {
  label : string;
  backgroundColor : string;
  borderColor : string;
  data : list Z;
  tension : Q;
  printDates : list string;
  solutions : list string
}.

Record ChartData := mkChartData {
  labels : list string;
  datasets : list Dataset
}.

Definition is_finished (game : Game) : Prop :=
  status (game_data game) = WIN \/ status (game_data game) = FAIL.

#[global] Instance is_finished_dec game : Decision (is_finished game).
Proof. unfold is_finished. apply _. Defined.

Definition data_point (game : Game) : Z :=
  if bool_decide (status (game_data game) = WIN)
  then currentRowIndex (game_data game)
  else 7.

Section Chart.
Context `{DateEnv}.

(** The callback of [finishedGames.map] that builds the labels, run over
    the array from left to right; [lastMonth] is the variable the
    callback closes over. *)
Fixpoint month_labels (lastMonth : option month_value) (gs : list Game)
    : list string :=
  match gs with
  | [] => []
  | game :: rest =>
      let currentMonth := getMonth (print_date game) in
      if month_differs currentMonth lastMonth
      then month_year_label (print_date game)
             :: month_labels (Some currentMonth) rest
      else "" :: month_labels lastMonth rest
  end.

Definition finishedGames (gs : list Game) : list Game :=
  filter is_finished (reverse gs).

Definition chartData (gs : list Game) : ChartData :=
  let finished := finishedGames gs in
  {| labels := month_labels None finished;
     datasets :=
       [ {| label := "Guesses";
            backgroundColor := "#41B883";
            borderColor := "#41B883";
            data := map data_point finished;
            tension := 3 # 10;
            printDates := map print_date finished;
            solutions := map solution finished |} ] |}.
End Chart.

(** [chartOptions.scales.y] *)
Definition y_min : Z := 1.
Definition y_max : Z := 7.
Definition y_stepSize : Z := 1.
Definition y_tick_callback (v : Z) : value :=
  if bool_decide (v = 7) then VString "FAIL" else VNumber v.

(** [chartOptions.plugins.tooltip.callbacks.label], for the point at
    [dataIndex] of a dataset. *)
Definition tooltip_label (ds : Dataset) (dataIndex : nat) : list string :=
  let l := if bool_decide (label ds = "") then "" else label ds ++ ": " in
  let y := default 0 (data ds !! dataIndex) in
  let l := if bool_decide (y = 7) then l ++ "FAIL (6/6 attempts)"
           else l ++ pretty y in
  [l; from_option id "undefined" (solutions ds !! dataIndex)].

(** ** The games table: the spans of the "Turns" cell of a row *)

Definition getTurns (game : Game) : Z := currentRowIndex (game_data game).

Definition turns_cell (game : Game) : list string :=
  (match status (game_data game) with
   | WIN => [pretty (getTurns game) ++ "/6"]
   | FAIL => ["X/6"]
   | IN_PROGRESS => ["N/A"]
   end)
  ++ (if hardMode (game_data game) then ["*"] else []).

Definition getWordleUrl (dateStr : string) : string :=
  "https://www.nytimes.com/games/wordle/" ++ dateStr.

(** ** The JSON export

    [JSON.stringify(games.value, null, 2)] over the records of the declared
    [Game] type; an object lists its properties in the order of the
    declaration.  Numbers are integers and print in decimal (the exponent
    notation starts at [10^21], far above a puzzle id or a row index);
    strings are sequences of bytes, escaped as [QuoteJSONString] escapes
    the code units below 128. *)

#[warnings="-register-all"] Inductive json :=
| JNull
| JBool (b : bool)
| JNumber (z : Z)
| JString (s : string)
| JArray (items : list json)
| JObject (members : list (string * json)).

Definition status_name (s : Status) : string :=
  match s with
  | WIN => "WIN"
  | FAIL => "FAIL"
  | IN_PROGRESS => "IN_PROGRESS"
  end.

Definition json_of_board (b : BoardState) : json :=
  JObject [("0", JString (row0 b)); ("1", JString (row1 b));
           ("2", JString (row2 b)); ("3", JString (row3 b));
           ("4", JString (row4 b)); ("5", JString (row5 b))].

Definition json_of_game_data (d : GameData) : json :=
  JObject [("boardState", json_of_board (boardState d));
           ("currentRowIndex", JNumber (currentRowIndex d));
           ("hardMode", JBool (hardMode d));
           ("status", JString (status_name (status d)))].

Definition json_of_game (g : Game) : json :=
  JObject [("_id", JString (_id g));
           ("user_id", JString (user_id g));
           ("print_date", JString (print_date g));
           ("puzzle_id", JNumber (puzzle_id g));
           ("solution", JString (solution g));
           ("game_data", json_of_game_data (game_data g));
           ("fetched_at", JString (fetched_at g))].

Definition json_of_games (gs : list Game) : json :=
  JArray (map json_of_game gs).

Definition double_quote : ascii := "034"%char.
Definition newline : string := String "010"%char "".

Definition hex_digit (n : N) : ascii :=
  match n with
  | 0 => "0" | 1 => "1" | 2 => "2" | 3 => "3" | 4 => "4" | 5 => "5"
  | 6 => "6" | 7 => "7" | 8 => "8" | 9 => "9" | 10 => "a" | 11 => "b"
  | 12 => "c" | 13 => "d" | 14 => "e" | _ => "f"
  end%char%N.

(** One code unit of a quoted JSON string. *)
Definition escape_char (c : ascii) : string :=
  let n := N_of_ascii c in
  if (n =? 8)%N then "\b"
  else if (n =? 9)%N then "\t"
  else if (n =? 10)%N then "\n"
  else if (n =? 12)%N then "\f"
  else if (n =? 13)%N then "\r"
  else if (n =? 34)%N then String "\"%char (String double_quote "")
  else if (n =? 92)%N then "\\"
  else if (n <? 32)%N then
    "\u00" ++ String (hex_digit (n / 16)) (String (hex_digit (n mod 16)) "")
  else String c "".

Fixpoint escape (s : string) : string :=
  match s with
  | EmptyString => ""
  | String c rest => escape_char c ++ escape rest
  end.

Definition quote (s : string) : string :=
  String double_quote (escape s) ++ String double_quote "".

(** An array or an object: empty, or one item per line at the deeper
    indentation. *)
Definition bracket (opening closing indent inner : string)
    (parts : list string) : string :=
  match parts with
  | [] => opening ++ closing
  | _ =>
      opening ++ newline ++ inner
        ++ String.concat ("," ++ newline ++ inner) parts
        ++ newline ++ indent ++ closing
  end.

(** [SerializeJSONProperty] with a non-empty [gap]; [indent] is the
    current indentation. *)
Fixpoint serialize (gap indent : string) (j : json) {struct j} : string :=
  match j with
  | JNull => "null"
  | JBool true => "true"
  | JBool false => "false"
  | JNumber z => pretty z
  | JString s => quote s
  | JArray items =>
      bracket "[" "]" indent (indent ++ gap)
        (map (serialize gap (indent ++ gap)) items)
  | JObject members =>
      bracket "{" "}" indent (indent ++ gap)
        (map (fun kv : string * json =>
                let (k, v) := kv in
                quote k ++ ": " ++ serialize gap (indent ++ gap) v)
             members)
  end.

(** [JSON.stringify(v, null, 2)] *)
Definition JSON_stringify_2 (j : json) : string := serialize "  " "" j.

(** What [downloadGames] hands to the browser: the blob behind the object
    URL and the [download] attribute of the anchor it clicks. *)
Record Download := mkDownload {
  blob_text : string;
  blob_type : string;
  download : string
}.

Definition downloadGames (gs : list Game) : Download :=
  let json := JSON_stringify_2 (json_of_games gs) in
  {| blob_text := json;
     blob_type := "application/json";
     download := "wordle_games.json" |}.

(** ** Arrays as objects in a store

    A JavaScript array is a reference: [reverse] works in place on the
    array it is called on, while the spread [[...a]], [filter] and [map]
    build a new array.  The computations are written once more over a
    store of arrays, with [games.value] a reference into it, to follow
    which arrays each of them writes. *)

Module Store.

Record store := mkStore {
  arrays : gmap nat (list Game);
  games_value : nat                (* the array [games.value] refers to *)
}.

Definition M (A : Type) : Type := store -> A * store.

Definition ret {A} (a : A) : M A := fun s => (a, s).
Definition bind {A B} (m : M A) (k : A -> M B) : M B :=
  fun s => let (a, s') := m s in k a s'.

Declare Scope store_scope.
Delimit Scope store_scope with store.
Notation "x <- m ;; k" := (bind m (fun x => k))
  (at level 100, m at next level, right associativity) : store_scope.
Local Open Scope store_scope.

Definition read_games : M nat := fun s => (games_value s, s).

(** The elements of the array at [a] (no elements if [a] dangles). *)
Definition elements (a : nat) : M (list Game) :=
  fun s => (default [] (arrays s !! a), s).

(** A new array, at a reference not in use. *)
Definition array_new (xs : list Game) : M nat :=
  fun s =>
    let a := fresh (dom (arrays s)) in
    (a, {| arrays := <[a := xs]> (arrays s); games_value := games_value s |}).

(** [[...a]] *)
Definition array_spread (a : nat) : M nat :=
  xs <- elements a ;; array_new xs.

(** [a.reverse()]: reverses [a] itself and returns [a]. *)
Definition array_reverse (a : nat) : M nat :=
  fun s =>
    (a, {| arrays := alter reverse a (arrays s);
           games_value := games_value s |}).

(** [a.filter(p)] *)
Definition array_filter (P : Game -> Prop) `{forall g, Decision (P g)}
    (a : nat) : M nat :=
  xs <- elements a ;; array_new (filter P xs).

(** [a.map(f)], for a callback that returns primitives: the new array
    holds no reference and is given by its elements. *)
Definition array_map {B} (f : Game -> B) (a : nat) : M (list B) :=
  xs <- elements a ;; ret (map f xs).

(** [a.reduce(f, init)] *)
Definition array_reduce {B} (f : B -> Game -> B) (init : B) (a : nat) : M B :=
  xs <- elements a ;; ret (foldl f init xs).

(** [a.length] *)
Definition array_length (a : nat) : M nat :=
  xs <- elements a ;; ret (length xs).

Definition totalGames : M nat :=
  g <- read_games ;; array_length g.

Definition winningGames : M nat :=
  g <- read_games ;;
  array_filter (fun game => status (game_data game) = WIN) g.

Definition totalWins : M nat :=
  w <- winningGames ;; array_length w.

Definition winPercentage : M (option string) :=
  n <- totalGames ;;
  if bool_decide (n = O) then ret (Some "0.00%")
  else
    w <- totalWins ;;
    n <- totalGames ;;
    let percentage :=
      number_mul (number_div (length_number w) (length_number n)) (of_Z 100) in
    ret ((fun s => s ++ "%") <$> toFixed 2 percentage).

Definition averageTurns : M (option string) :=
  w <- totalWins ;;
  if bool_decide (w = O) then ret (Some "N/A")
  else
    wins <- winningGames ;;
    totalTurns <-
      array_reduce
        (fun sum game => number_add sum (of_Z (currentRowIndex (game_data game))))
        (of_Z 0) wins ;;
    w <- totalWins ;;
    let average := number_div totalTurns (length_number w) in
    ret (toFixed 2 average).

Definition chartData `{DateEnv} : M ChartData :=
  g <- read_games ;;
  copy <- array_spread g ;;
  sortedGames <- array_reverse copy ;;
  finishedGames <- array_filter is_finished sortedGames ;;
  finished <- elements finishedGames ;;
  let labels := month_labels None finished in
  allPrintDates <- array_map print_date finishedGames ;;
  allSolutions <- array_map solution finishedGames ;;
  points <- array_map data_point finishedGames ;;
  ret {| labels := labels;
         datasets :=
           [ {| label := "Guesses";
                backgroundColor := "#41B883";
                borderColor := "#41B883";
                data := points;
                tension := 3 # 10;
                printDates := allPrintDates;
                solutions := allSolutions |} ] |}.

Definition downloadGames : M Download :=
  g <- read_games ;;
  xs <- elements g ;;
  let json := JSON_stringify_2 (json_of_games xs) in
  ret {| blob_text := json;
         blob_type := "application/json";
         download := "wordle_games.json" |}.

(** What [chartData] would be without the copy:
    [games.value.reverse()] in place of [[...games.value].reverse()]. *)
Definition reverse_without_copy : M nat :=
  g <- read_games ;; array_reverse g.

(** [s'] has every array of [s] with the elements it has in [s], and
    the same [games.value]; it may have more arrays. *)
Definition extends (s s' : store) : Prop :=
  games_value s' = games_value s
  /\ forall a, a ∈ dom (arrays s) -> arrays s' !! a = arrays s !! a.

(** A computation that writes to no array that exists when it starts. *)
Definition frames {A} (m : M A) : Prop := forall s, extends s (m s).2.

End Store.

(** ** A reference environment for [Date]: UTC and the en-US locale

    For date-only strings [YYYY-MM-DD] naming a day of the calendar; the
    engines disagree on other strings, which are all taken as invalid
    here.  It gives the theorems below concrete instances. *)

Definition digit_value (c : ascii) : option nat :=
  let n := nat_of_ascii c in
  if ((48 <=? n) && (n <=? 57))%nat then Some (n - 48)%nat else None.

Definition is_leap (y : nat) : bool :=
  ((y mod 4 =? 0) && negb (y mod 100 =? 0) || (y mod 400 =? 0))%nat.

Definition days_in_month (y m : nat) : nat :=
  match m with
  | 2 => if is_leap y then 29 else 28
  | 4 | 6 | 9 | 11 => 30
  | _ => 31
  end%nat.

(** Year, month [1..12] and day of a well-formed date. *)
Definition parse_date (s : string) : option (nat * nat * nat) :=
  match String.list_ascii_of_string s with
  | [y1; y2; y3; y4; s1; m1; m2; s2; d1; d2] =>
      y1 ← digit_value y1; y2 ← digit_value y2;
      y3 ← digit_value y3; y4 ← digit_value y4;
      m1 ← digit_value m1; m2 ← digit_value m2;
      d1 ← digit_value d1; d2 ← digit_value d2;
      let y := (1000 * y1 + 100 * y2 + 10 * y3 + y4)%nat in
      let m := (10 * m1 + m2)%nat in
      let d := (10 * d1 + d2)%nat in
      if bool_decide (s1 = "-"%char) && bool_decide (s2 = "-"%char)
         && (1 <=? m)%nat && (m <=? 12)%nat
         && (1 <=? d)%nat && (d <=? days_in_month y m)%nat
      then Some (y, m, d) else None
  | _ => None
  end.

Definition short_month (m : nat) : string :=
  match m with
  | 1 => "Jan" | 2 => "Feb" | 3 => "Mar" | 4 => "Apr" | 5 => "May"
  | 6 => "Jun" | 7 => "Jul" | 8 => "Aug" | 9 => "Sep" | 10 => "Oct"
  | 11 => "Nov" | _ => "Dec"
  end%nat.

Definition utc_en_US : DateEnv :=
  {| getMonth s :=
       match parse_date s with
       | Some (_, m, _) => MonthIndex (m - 1)
       | None => MonthNaN
       end;
     month_year_label s :=
       match parse_date s with
       | Some (y, m, _) => short_month m ++ " " ++ pretty y
       | None => "Invalid Date"
       end |}.

(** ** An environment behind UTC

    [new Date('YYYY-MM-DD')] is midnight UTC of that day, while [getMonth]
    and [toLocaleString] read the date in local time.  In a time zone
    behind UTC (offsets from -01:00 to -12:00, as in the Americas) it is
    then still the evening of the day before.  For the same date-only
    strings as above, from the year 0001 on. *)

Definition previous_day (date : nat * nat * nat) : nat * nat * nat :=
  let '(y, m, d) := date in
  if (2 <=? d)%nat then (y, m, d - 1)%nat
  else if (2 <=? m)%nat then (y, m - 1, days_in_month y (m - 1))%nat
  else (y - 1, 12, 31)%nat.

(** The local calendar day of [new Date(s)]. *)
Definition local_day_behind_UTC (s : string) : option (nat * nat * nat) :=
  previous_day <$> parse_date s.

Definition behind_UTC_en_US : DateEnv :=
  {| getMonth s :=
       match local_day_behind_UTC s with
       | Some (_, m, _) => MonthIndex (m - 1)
       | None => MonthNaN
       end;
     month_year_label s :=
       match local_day_behind_UTC s with
       | Some (y, m, _) => short_month m ++ " " ++ pretty y
       | None => "Invalid Date"
       end |}.

(** ** Sample records *)

Definition sample_game (date : string) (id : Z) (row : Z) (st : Status) : Game :=
  {| _id := "65f0" ++ pretty id;
     user_id := "u1";
     print_date := date;
     puzzle_id := id;
     solution := "crane";
     game_data :=
       {| boardState := mkBoardState "slate" "crane" "" "" "" "";
          currentRowIndex := row; hardMode := false; status := st |};
     fetched_at := "2024-04-02T08:00:00.000Z" |}.

(** Newest first, as the table lists them. *)
Definition sample_games : list Game :=
  [ sample_game "2024-04-01" 1017 3 IN_PROGRESS;
    sample_game "2024-03-31" 1016 6 FAIL;
    sample_game "2024-03-30" 1015 4 WIN;
    sample_game "2024-02-29" 985 2 WIN ].

(** Three games finished around the turn of a month, newest first. *)
Definition games_at_turn_of_month : list Game :=
  [ sample_game "2024-03-02" 987 3 WIN;
    sample_game "2024-03-01" 986 6 FAIL;
    sample_game "2024-02-29" 985 2 WIN ].

(** ** Predicates used in the statements *)

(** Either no sync is pending and the status is not ['Syncing...'], or
    exactly one is pending and the status is ['Syncing...']. *)
Definition single_flight (p : Page) : Prop :=
  (syncs_in_flight p = 0%nat /\ syncStatus (app p) <> msg_syncing)
  \/ (syncs_in_flight p = 1%nat /\ syncStatus (app p) = msg_syncing).

(** [game] with another [currentRowIndex]. *)
Definition with_row (r : Z) (game : Game) : Game :=
  {| _id := _id game; user_id := user_id game; print_date := print_date game;
     puzzle_id := puzzle_id game; solution := solution game;
     game_data :=
       {| boardState := boardState (game_data game);
          currentRowIndex := r;
          hardMode := hardMode (game_data game);
          status := status (game_data game) |};
     fetched_at := fetched_at game |}.

(** Two records that are the same, or differ only in the
    [currentRowIndex] of a game in progress. *)
Definition same_but_row_in_progress (g g' : Game) : Prop :=
  g' = g \/ (status (game_data g) = IN_PROGRESS /\ exists r, g' = with_row r g).

(** What one record puts on the chart: a win its row, a failure 7, a
    game in progress nothing. *)
Definition contribution (game : Game) : option Z :=
  match status (game_data game) with
  | WIN => Some (currentRowIndex (game_data game))
  | FAIL => Some 7
  | IN_PROGRESS => None
  end.

(** [a !== b] on two results of [getMonth()]. *)
Definition month_neq (a b : month_value) : bool := month_differs a (Some b).

(** ** Renderings and counts used in the statements *)

(** A non-negative value with two fraction digits: the nearest multiple
    of [1/100], the larger one on a tie. *)
Definition fixed2 (q : Q) : string :=
  let n := Qfloor (q * inject_Z 100 + (1 # 2)) in
  pretty (n / 100)%Z ++ "." ++ pad_zeros 2 (pretty (n mod 100)%Z).

Definition is_digit (c : ascii) : bool :=
  let n := nat_of_ascii c in ((48 <=? n) && (n <=? 57))%nat.

Fixpoint all_digits (s : string) : bool :=
  match s with
  | EmptyString => true
  | String c rest => is_digit c && all_digits rest
  end.

(** Digits, a point, two digits. *)
Definition decimal_with_2_digits (s : string) : Prop :=
  exists ip fp,
    s = ip ++ "." ++ fp /\ ip <> "" /\ all_digits ip = true
    /\ all_digits fp = true /\ String.length fp = 2%nat.

(** The number of games with a given status. *)
Fixpoint count_status (st : Status) (gs : list Game) : nat :=
  match gs with
  | [] => O
  | g :: rest =>
      if bool_decide (status (game_data g) = st)
      then S (count_status st rest) else count_status st rest
  end.

(** The sum of [currentRowIndex] over the games that are wins. *)
Fixpoint sum_rows_of_wins (gs : list Game) : Z :=
  match gs with
  | [] => 0
  | g :: rest =>
      if bool_decide (status (game_data g) = WIN)
      then currentRowIndex (game_data g) + sum_rows_of_wins rest
      else sum_rows_of_wins rest
  end.

(** ** The text of the export, record by record *)

(** [u] is a prefix of [v]. *)
Fixpoint string_prefix (u v : string) : bool :=
  match u, v with
  | EmptyString, _ => true
  | String a u', String b v' => bool_decide (a = b) && string_prefix u' v'
  | String _ _, EmptyString => false
  end.

Definition all_ascii : list ascii := map ascii_of_nat (seq 0 256).

(** No escape sequence starts another one, and none starts with a
    double quote: a quoted string can be read back from the left. *)
Definition escape_is_prefix_code : bool :=
  forallb (fun c =>
    forallb (fun c' =>
      implb (string_prefix (escape_char c) (escape_char c'))
            (bool_decide (c = c')))
      all_ascii
    && match escape_char c with
       | String h _ => negb (bool_decide (h = double_quote))
       | EmptyString => false
       end)
    all_ascii.

(** The characters of a printed integer. *)
Definition is_number_char (c : ascii) : bool :=
  is_digit c || bool_decide (c = "-"%char).

Fixpoint all_number_chars (s : string) : bool :=
  match s with
  | EmptyString => true
  | String c rest => is_number_char c && all_number_chars rest
  end.

(** The rendering of one record inside the array, followed by [rest]. *)
Definition game_text (g : Game) (rest : string) : string :=
  serialize "  " "  " (json_of_game g) ++ rest.

(** The records of a non-empty array, one after the other, up to the
    closing bracket. *)
Fixpoint games_text (g : Game) (gs : list Game) : string :=
  match gs with
  | [] => game_text g (newline ++ "]")
  | g' :: rest => game_text g ("," ++ newline ++ "  " ++ games_text g' rest)
  end.

(** ** The binary64 operations of the Standard Library, to compare with

    [SpecFloat] is the IEEE 754 specification behind the primitive floats;
    at precision 53 and [emax] 1024 it is binary64. *)

Definition number_of_spec (f : spec_float) : number :=
  match f with
  | S754_zero _ => Finite 0
  | S754_infinity s => Infinity s
  | S754_nan => NaN
  | S754_finite s m e =>
      Finite (Qred (inject_Z (if s then Z.neg m else Z.pos m) * pow2 e))
  end.

Definition spec_of_Z (z : Z) : spec_float := binary_normalize 53 1024 z 0 false.

Definition same_number (x y : number) : bool :=
  match x, y with
  | NaN, NaN => true
  | Infinity s, Infinity t => eqb s t
  | Finite p, Finite q => Qeq_bool p q
  | _, _ => false
  end.

(** [(a / b) * 100] and [a / b + a], both ways. *)
Definition agrees_with_SpecFloat (a b : Z) : bool :=
  same_number
    (number_of_spec
       (SFmul 53 1024 (SFdiv 53 1024 (spec_of_Z a) (spec_of_Z b)) (spec_of_Z 100)))
    (number_mul (number_div (of_Z a) (of_Z b)) (of_Z 100))
  && same_number
       (number_of_spec
          (SFadd 53 1024 (SFdiv 53 1024 (spec_of_Z a) (spec_of_Z b)) (spec_of_Z a)))
       (number_add (number_div (of_Z a) (of_Z b)) (of_Z a)).

(** ** The rest of the template *)

(** The truth value of a JavaScript value in a condition. *)
Definition truthy (v : value) : bool :=
  match v with
  | VUndefined | VNull => false
  | VNumber z => negb (z =? 0)%Z
  | VString s => negb (bool_decide (s = ""))
  | VGames _ => true
  end.

(** [<p v-if="syncStatus && syncStatus !== 'Syncing...'">]: whether the
    message paragraph is rendered. *)
Definition sync_message_visible (st : AppState) : bool :=
  truthy (VString (syncStatus st))
  && negb (bool_decide (syncStatus st = "Syncing...")).

(** [Date.parse] and [toUTCString] belong to the platform. *)
Class UtcEnv := {
  date_parse_is_NaN : value -> bool;     (* [isNaN(Date.parse(v))] *)
  toUTCString : value -> string          (* [new Date(v).toUTCString()] *)
}.

(** The value of the expression shown after "Last contentful sync:",
    [lastSynced ? (isNaN(Date.parse(lastSynced)) ? lastSynced
                   : new Date(lastSynced).toUTCString()) : 'Never']. *)
Definition last_sync_shown `{UtcEnv} (st : AppState) : value :=
  if truthy (lastSynced st) then
    if date_parse_is_NaN (lastSynced st) then lastSynced st
    else VString (toUTCString (lastSynced st))
  else VString "Never".

(** [v.length]: [None] stands for the TypeError of reading a property of
    [undefined] or [null]; a number has no such property.  Only the
    comparison with 0 is used, for which bytes and code units agree. *)
Definition length_of (v : value) : option value :=
  match v with
  | VUndefined | VNull => None
  | VNumber _ => Some VUndefined
  | VString s => Some (VNumber (Z.of_nat (String.length s)))
  | VGames gs => Some (VNumber (Z.of_nat (length gs)))
  end.

(** Whether [v.filter] is a function: of the values a response can put in
    [games], only an array has the method.  On a string or a number
    [games.value.filter(...)] throws a TypeError. *)
Definition has_filter (v : value) : bool :=
  match v with
  | VGames _ => true
  | VUndefined | VNull | VNumber _ | VString _ => false
  end.

(** Which branch of
    [<div v-if="loading"> / <div v-else-if="games.length === 0"> / <div v-else>]
    is rendered.  [RenderError] stands for a TypeError thrown while
    rendering. *)
Inductive main_view :=
| LoadingMessage
| NoDataMessage
| Dashboard
| RenderError.

(** The [v-else-if] reads [games.length]; the [v-else] branch renders the
    cards, whose [winPercentage] does not return early (the length is not
    0) and reads [totalWins], hence [winningGames], which calls
    [games.value.filter]. *)
Definition rendered_view (st : AppState) : main_view :=
  if loading st then LoadingMessage
  else
    match length_of (games st) with
    | None => RenderError
    | Some n =>
        if strict_eq n (VNumber 0) then NoDataMessage
        else if has_filter (games st) then Dashboard
        else RenderError
    end.

(** [chartOptions.scales.x.grid.color]: the colour of the grid line of the
    tick at [tick], from [context.chart.data.labels[context.tick.value]]. *)
Definition grid_color (chart_labels : list string) (tick : nat) : string :=
  let label := from_option VString VUndefined (chart_labels !! tick) in
  if negb (strict_eq label (VString "")) then "rgba(0, 0, 0, 0.1)"
  else "rgba(0, 0, 0, 0.0)".

(** [chartOptions.scales.x.ticks.callback]; [getLabelForValue] is the
    method of the scale the callback is called on. *)
Definition x_tick_callback (getLabelForValue : nat -> value) (val : nat) : value :=
  if negb (strict_eq (getLabelForValue val) (VString "")) then getLabelForValue val
  else VNull.

(** [chartOptions.plugins.tooltip.callbacks.title], for the point at
    [dataIndex] of a dataset. *)
Definition tooltip_title (ds : Dataset) (dataIndex : nat) : value :=
  from_option VString VUndefined (printDates ds !! dataIndex).

(** The characters a JSON text may hold inside a string without escape:
    no control character. *)
Fixpoint no_control_chars (s : string) : bool :=
  match s with
  | EmptyString => true
  | String c rest => (32 <=? nat_of_ascii c)%nat && no_control_chars rest
  end.

Definition escape_has_no_control_chars : bool :=
  forallb (fun c => no_control_chars (escape_char c)) all_ascii.

(** The percentage and the mean in hundredths, as [toFixed(2)] prints
    them. *)
Definition hundredths (n : Z) : string :=
  pretty (n / 100) ++ "." ++ pad_zeros 2 (pretty (n mod 100)).

(** * Properties *)

(** ** Reading response bodies *)

Lemma strict_eq_true (a b : value) : strict_eq a b = true <-> a = b.
Proof. unfold strict_eq. apply bool_decide_eq_true. Qed.

Lemma strict_eq_false (a b : value) : strict_eq a b = false <-> a <> b.
Proof. unfold strict_eq. apply bool_decide_eq_false. Qed.

Lemma msg_added_not_syncing v : msg_added v <> msg_syncing.
Proof. unfold msg_added, msg_syncing. simpl. discriminate. Qed.

Lemma msg_failed_not_syncing m : msg_failed m <> msg_syncing.
Proof. unfold msg_failed, msg_syncing. simpl. discriminate. Qed.

Lemma msg_added_not_fixed v :
  msg_added v <> msg_up_to_date /\ msg_added v <> msg_no_ids
  /\ msg_added v <> msg_none_added.
Proof. unfold msg_added. simpl. repeat split; discriminate. Qed.

(** The branch [syncData] takes on a fulfilled response, by what the
    response holds. *)
Lemma syncData_settle_cases data st :
  let s := prop data "status" in
  let a := prop data "added" in
  (s = VString "already_up_to_date"
   /\ syncData_settle (Resolved data) st = (set_syncStatus msg_up_to_date st, false))
  \/ (s <> VString "already_up_to_date" /\ s = VString "no_ids_found"
      /\ syncData_settle (Resolved data) st = (set_syncStatus msg_no_ids st, false))
  \/ (s <> VString "already_up_to_date" /\ s <> VString "no_ids_found"
      /\ a = VNumber 0
      /\ syncData_settle (Resolved data) st = (set_syncStatus msg_none_added st, false))
  \/ (s <> VString "already_up_to_date" /\ s <> VString "no_ids_found"
      /\ a <> VNumber 0
      /\ syncData_settle (Resolved data) st
         = (fetchGames_start (set_syncStatus (msg_added a) st), true)).
Proof.
  intros s a. unfold syncData_settle. fold s a.
  destruct (strict_eq s (VString "already_up_to_date")) eqn:E1.
  { left. split; [by apply strict_eq_true|done]. }
  apply strict_eq_false in E1.
  destruct (strict_eq s (VString "no_ids_found")) eqn:E2.
  { right; left. split; [done|]. split; [by apply strict_eq_true|done]. }
  apply strict_eq_false in E2.
  destruct (strict_eq a (VNumber 0)) eqn:E3.
  { right; right; left. repeat split; try done. by apply strict_eq_true. }
  apply strict_eq_false in E3.
  right; right; right. done.
Qed.

Lemma syncData_settle_not_syncing r st :
  syncStatus (syncData_settle r st).1 <> msg_syncing.
Proof.
  destruct r as [data|m]; [|apply msg_failed_not_syncing].
  destruct (syncData_settle_cases data st)
    as [(_ & ->)|[(_ & _ & ->)|[(_ & _ & _ & ->)|(_ & _ & _ & ->)]]];
    simpl; discriminate.
Qed.

Lemma prop_wire_summary nnd done o :
  prop (wire_summary nnd done o) "status" = VString (wire_label nnd done o.1)
  /\ prop (wire_summary nnd done o) "added" = VNumber (Z.of_nat o.2).
Proof.
  unfold prop, wire_summary. split.
  - by rewrite lookup_insert_eq.
  - by rewrite lookup_insert_ne, lookup_singleton_eq.
Qed.

(** With the two statuses spelled as the client tests them, the four
    outcomes of the state machine get four different messages. *)
Lemma sync_message_of_outcome nnd done dates resolved merged :
  nnd <> "already_up_to_date" -> nnd <> "no_ids_found" ->
  done <> "already_up_to_date" -> done <> "no_ids_found" ->
  let o := orchestrate dates resolved merged in
  sync_message (wire_summary nnd done o)
  = match o.1 with
    | ALREADY_UP_TO_DATE => msg_up_to_date
    | NO_IDS_FOUND => msg_no_ids
    | NO_NEW_DATA => msg_none_added
    | DONE => msg_added (VNumber (Z.of_nat o.2))
    end
  /\ (o.1 = DONE <-> (0 < o.2)%nat).
Proof.
  intros N1 N2 D1 D2 o. unfold sync_message, syncData_settle.
  destruct (prop_wire_summary nnd done o) as [-> ->].
  subst o. unfold orchestrate.
  destruct dates as [|dates];
    [simpl; split; [done|split; [discriminate|lia]]|].
  destruct resolved as [|resolved];
    [simpl; split; [done|split; [discriminate|lia]]|].
  destruct merged as [|merged]; simpl.
  - unfold strict_eq. rewrite !bool_decide_false by congruence.
    split; [done|]. split; [discriminate|lia].
  - unfold strict_eq. rewrite !bool_decide_false by (congruence || done).
    split; [done|]. split; [lia|done].
Qed.

(** C1, as the spec words it: a backend that puts the terminal labels of
    section 4.5 into [status] gets the same message for ALREADY_UP_TO_DATE,
    for NO_IDS_FOUND and for NO_NEW_DATA, because the client looks for
    ["already_up_to_date"] and ["no_ids_found"]. *)
Lemma sync_terminal_labels_share_a_message :
  orchestrate 0 0 0 = (ALREADY_UP_TO_DATE, 0%nat)
  /\ orchestrate 3 0 0 = (NO_IDS_FOUND, 0%nat)
  /\ orchestrate 3 3 0 = (NO_NEW_DATA, 0%nat)
  /\ sync_message (sync_summary (orchestrate 0 0 0)) = msg_none_added
  /\ sync_message (sync_summary (orchestrate 3 0 0)) = msg_none_added
  /\ sync_message (sync_summary (orchestrate 3 3 0)) = msg_none_added.
Proof. by vm_compute. Qed.

(** C1, amended: the message [syncData] shows is decided by the status
    strings ["already_up_to_date"] and ["no_ids_found"] and, for every
    other status, by whether [added] is 0.  The four messages are pairwise
    different, and the added-records message (with the refetch) is
    reported exactly when the status is neither of the two strings and
    [added] is not 0. *)
Theorem syncData_message_by_status (data : gmap string value) (st : AppState) :
  let s := prop data "status" in
  let a := prop data "added" in
  let out := syncData_settle (Resolved data) st in
  syncStatus out.1 = sync_message data
  /\ (s = VString "already_up_to_date" -> sync_message data = msg_up_to_date)
  /\ (s <> VString "already_up_to_date" -> s = VString "no_ids_found" ->
      sync_message data = msg_no_ids)
  /\ (s <> VString "already_up_to_date" -> s <> VString "no_ids_found" ->
      a = VNumber 0 -> sync_message data = msg_none_added)
  /\ (s <> VString "already_up_to_date" -> s <> VString "no_ids_found" ->
      a <> VNumber 0 -> sync_message data = msg_added a)
  /\ ((exists v, sync_message data = msg_added v) <->
      s <> VString "already_up_to_date" /\ s <> VString "no_ids_found"
      /\ a <> VNumber 0)
  /\ (out.2 = true <->
      s <> VString "already_up_to_date" /\ s <> VString "no_ids_found"
      /\ a <> VNumber 0)
  /\ msg_up_to_date <> msg_no_ids /\ msg_up_to_date <> msg_none_added
  /\ msg_no_ids <> msg_none_added
  /\ (forall v, msg_added v <> msg_up_to_date /\ msg_added v <> msg_no_ids
                /\ msg_added v <> msg_none_added)
  /\ (forall nnd done dates resolved merged,
        nnd <> "already_up_to_date" -> nnd <> "no_ids_found" ->
        done <> "already_up_to_date" -> done <> "no_ids_found" ->
        let o := orchestrate dates resolved merged in
        sync_message (wire_summary nnd done o)
        = match o.1 with
          | ALREADY_UP_TO_DATE => msg_up_to_date
          | NO_IDS_FOUND => msg_no_ids
          | NO_NEW_DATA => msg_none_added
          | DONE => msg_added (VNumber (Z.of_nat o.2))
          end
        /\ (o.1 = DONE <-> (0 < o.2)%nat)).
Proof.
  intros s a out.
  cut (syncStatus out.1 = sync_message data
  /\ (s = VString "already_up_to_date" -> sync_message data = msg_up_to_date)
  /\ (s <> VString "already_up_to_date" -> s = VString "no_ids_found" ->
      sync_message data = msg_no_ids)
  /\ (s <> VString "already_up_to_date" -> s <> VString "no_ids_found" ->
      a = VNumber 0 -> sync_message data = msg_none_added)
  /\ (s <> VString "already_up_to_date" -> s <> VString "no_ids_found" ->
      a <> VNumber 0 -> sync_message data = msg_added a)
  /\ ((exists v, sync_message data = msg_added v) <->
      s <> VString "already_up_to_date" /\ s <> VString "no_ids_found"
      /\ a <> VNumber 0)
  /\ (out.2 = true <->
      s <> VString "already_up_to_date" /\ s <> VString "no_ids_found"
      /\ a <> VNumber 0)
  /\ msg_up_to_date <> msg_no_ids /\ msg_up_to_date <> msg_none_added
  /\ msg_no_ids <> msg_none_added
  /\ (forall v, msg_added v <> msg_up_to_date /\ msg_added v <> msg_no_ids
                /\ msg_added v <> msg_none_added)).
  { intros H. repeat (split; [apply H|]).
    intros. by apply sync_message_of_outcome. }
  assert (Hmsg : syncStatus out.1 = sync_message data).
  { unfold sync_message, out.
    destruct (syncData_settle_cases data st)
      as [(? & ->)|[(? & ? & ->)|[(? & ? & ? & ->)|(? & ? & ? & ->)]]];
    destruct (syncData_settle_cases data initial_state)
      as [(? & ->)|[(? & ? & ->)|[(? & ? & ? & ->)|(? & ? & ? & ->)]]];
    simpl in *; congruence. }
  split; [exact Hmsg|]. rewrite <- Hmsg. clear Hmsg.
  pose proof msg_added_not_fixed as Hadd.
  assert (Hfix : msg_up_to_date <> msg_no_ids /\ msg_up_to_date <> msg_none_added
                 /\ msg_no_ids <> msg_none_added) by (repeat split; discriminate).
  destruct Hfix as (F1 & F2 & F3).
  unfold out.
  destruct (syncData_settle_cases data st)
    as [(H1 & ->)|[(H1 & H2 & ->)|[(H1 & H2 & H3 & ->)|(H1 & H2 & H3 & ->)]]];
    fold s in H1; try fold s in H2; try fold a in H3; simpl.
  all: split_and!; try done; try (intros; congruence); try apply Hadd.
  all: split;
    [ first [ discriminate
            | intros [v Hv]; destruct (Hadd v) as (? & ? & ?); congruence
            | done ]
    | first [ intros (? & ? & ?); congruence | intros _; by exists a | done ] ].
Qed.

(** C2, as the spec words it: on a body with the fields [games],
    [lastSyncedAt] and [userId], [fetchGames] gets the games but reads
    [undefined] for the last-synced timestamp and for the user id. *)
Lemma fetchGames_misses_camel_case_fields :
  let body := games_body sample_games (Some "2024-04-02T08:00:00.000Z") "u1" in
  let st := fetchGames_settle (Resolved body) (fetchGames_start initial_state) in
  dom body = {[ "games"; "lastSyncedAt"; "userId" ]}
  /\ games st = VGames sample_games
  /\ lastSynced st = VUndefined
  /\ userId st = VUndefined.
Proof.
  split; [|by vm_compute].
  unfold games_body. rewrite !dom_insert_L, dom_singleton_L. set_solver.
Qed.

(** C2, amended: [fetchGames] reads the games list from the field [games],
    the last-synced timestamp from [last_synced_at] and the user id from
    [user_id] into its state, and reads no other field; a body made of
    these three fields is taken over in full. *)
Theorem fetchGames_reads_snake_case_fields (data : gmap string value) (st : AppState) :
  let st' := fetchGames_settle (Resolved data) st in
  games st' = prop data "games"
  /\ lastSynced st' = prop data "last_synced_at"
  /\ userId st' = prop data "user_id"
  /\ loading st' = false
  /\ syncStatus st' = syncStatus st
  /\ (forall data' : gmap string value,
        data' !! "games" = data !! "games" ->
        data' !! "last_synced_at" = data !! "last_synced_at" ->
        data' !! "user_id" = data !! "user_id" ->
        fetchGames_settle (Resolved data') st = st')
  /\ (forall gs ts uid,
        data = {[ "games" := VGames gs; "last_synced_at" := ts;
                  "user_id" := VString uid ]} ->
        games st' = VGames gs /\ lastSynced st' = ts /\ userId st' = VString uid).
Proof.
  simpl. split_and!; try done.
  - intros data' Hg Hl Hu. unfold prop. by rewrite Hg, Hl, Hu.
  - intros gs ts uid ->. by vm_compute.
Qed.

(** ** The sync button *)

Lemma sync_button_disabled_iff st :
  sync_button_disabled st = true <-> syncStatus st = msg_syncing.
Proof. unfold sync_button_disabled. apply bool_decide_eq_true. Qed.

Lemma single_flight_mounted : single_flight mounted_page.
Proof. left. split; [done|discriminate]. Qed.

Lemma single_flight_step e p p' :
  single_flight p -> step e p = Some p' -> single_flight p'.
Proof.
  intros Hinv Hstep. destruct e as [|r|r]; simpl in Hstep.
  - destruct (sync_button_disabled (app p)) eqn:Hd.
    + by simplify_eq.
    + simplify_eq. right. simpl. split; [|done].
      destruct Hinv as [[-> _]|[_ Hs]]; [done|].
      apply sync_button_disabled_iff in Hs. congruence.
  - destruct (syncs_in_flight p) as [|n] eqn:Hn; [done|].
    pose proof (syncData_settle_not_syncing r (app p)) as Hne.
    destruct (syncData_settle r (app p)) as [st refetch]. simplify_eq.
    left. simpl. split; [|done].
    destruct Hinv as [[? _]|[? _]]; lia.
  - destruct (fetches_in_flight p) as [|n]; [done|]. simplify_eq.
    destruct r; exact Hinv.
Qed.

Lemma single_flight_run trace : forall p p',
  single_flight p -> run trace p = Some p' -> single_flight p'.
Proof.
  induction trace as [|e rest IH]; intros p p' Hinv Hrun; simpl in Hrun.
  - by simplify_eq.
  - destruct (step e p) as [q|] eqn:Hstep; [|done].
    eapply IH; [|exact Hrun]. by eapply single_flight_step.
Qed.

(** C3, for one page: from the mounted page, whatever the user clicks on
    the rendered button and however the requests settle, at most one sync
    request of that page is pending; one is pending exactly while
    [syncStatus] is ['Syncing...'], which is exactly when the button is
    disabled, and a click then starts nothing. *)
Theorem at_most_one_sync_in_flight (trace : list event) (p : Page) :
  run trace mounted_page = Some p ->
  (syncs_in_flight p <= 1)%nat
  /\ (syncs_in_flight p = 1%nat <-> syncStatus (app p) = "Syncing...")
  /\ (sync_button_disabled (app p) = true <-> syncStatus (app p) = "Syncing...")
  /\ (syncs_in_flight p = 1%nat -> step ClickSync p = Some p)
  /\ (syncs_in_flight p = 0%nat ->
      exists p', step ClickSync p = Some p' /\ syncs_in_flight p' = 1%nat
                 /\ syncStatus (app p') = "Syncing...").
Proof.
  intros Hrun.
  pose proof (single_flight_run trace _ _ single_flight_mounted Hrun) as Hinv.
  fold msg_syncing. split_and!.
  - destruct Hinv as [[-> _]|[-> _]]; lia.
  - destruct Hinv as [[Hn Hs]|[Hn Hs]]; split; intros; try done; lia.
  - apply sync_button_disabled_iff.
  - intros H1. destruct Hinv as [[Hn _]|[_ Hs]]; [lia|].
    simpl. by apply sync_button_disabled_iff in Hs as ->.
  - intros H0. destruct Hinv as [[_ Hs]|[Hn _]]; [|lia].
    simpl. destruct (sync_button_disabled (app p)) eqn:Hd.
    + by apply sync_button_disabled_iff in Hd.
    + eexists. split; [done|]. simpl. by rewrite H0.
Qed.

Lemma at_most_one_sync_in_flight_witness :
  let trace := [ClickSync; ClickSync; FetchSettles (Rejected "Network Error")] in
  exists p, run trace mounted_page = Some p
            /\ syncs_in_flight p = 1%nat
            /\ syncStatus (app p) = "Syncing...".
Proof.
  eexists. split; [reflexivity|].
  destruct (at_most_one_sync_in_flight
              [ClickSync; ClickSync; FetchSettles (Rejected "Network Error")]
              _ eq_refl) as (_ & H & _).
  split; [reflexivity|]. apply H. reflexivity.
Defined.

(** C3, for one user: the guard is the [disabled] attribute of one page.
    With the dashboard open in two tabs and the button clicked in each, two
    sync requests of the same user are in flight at once, while each page
    has its button disabled and one request of its own. *)
Lemma two_tabs_two_syncs_in_flight :
  exists tabs,
    run_tabs [(0%nat, ClickSync); (1%nat, ClickSync)] [mounted_page; mounted_page]
    = Some tabs
    /\ user_syncs_in_flight tabs = 2%nat
    /\ Forall (fun p => syncs_in_flight p = 1%nat
                        /\ syncStatus (app p) = "Syncing..."
                        /\ sync_button_disabled (app p) = true) tabs.
Proof.
  eexists. split; [reflexivity|]. split; [reflexivity|].
  repeat constructor.
Qed.

(** ** Who reads [currentRowIndex] *)

Section RowReaders.
Context `{DateEnv}.

Lemma with_row_status r g : status (game_data (with_row r g)) = status (game_data g).
Proof. done. Qed.

(** A filter that rejects games in progress does not see the change. *)
Lemma filter_same_but_row (P : Game -> Prop) `{forall g, Decision (P g)} gs gs' :
  (forall g, P g -> status (game_data g) <> IN_PROGRESS) ->
  (forall r g, P (with_row r g) <-> P g) ->
  Forall2 same_but_row_in_progress gs gs' ->
  filter P gs = filter P gs'.
Proof.
  intros Hfin Hrow. induction 1 as [|g g' gs gs' Hg _ IH]; [done|].
  rewrite !filter_cons, IH.
  destruct Hg as [->|(Hs & r & ->)]; [done|].
  assert (~ P g) as Hg by (intros HP; by apply Hfin in HP).
  assert (~ P (with_row r g)) as Hg' by (by rewrite Hrow).
  by rewrite !decide_False.
Qed.

Lemma winningGames_same_but_row gs gs' :
  Forall2 same_but_row_in_progress gs gs' -> winningGames gs = winningGames gs'.
Proof.
  apply filter_same_but_row; [intros g Hg; congruence|done].
Qed.

Lemma finishedGames_same_but_row gs gs' :
  Forall2 same_but_row_in_progress gs gs' -> finishedGames gs = finishedGames gs'.
Proof.
  intros Hgs. apply filter_same_but_row.
  - intros g [Hg|Hg]; congruence.
  - done.
  - by apply Forall2_reverse.
Qed.

Lemma turns_cell_same_but_row g g' :
  same_but_row_in_progress g g' -> turns_cell g = turns_cell g'.
Proof.
  intros [->|(Hs & r & ->)]; [done|].
  unfold turns_cell. simpl. by rewrite Hs.
Qed.

(** C4: changing the [currentRowIndex] of games that are IN_PROGRESS
    changes no statistic, no cell of the "Turns" column and nothing of
    the chart: no reader looks at it. *)
Theorem row_of_game_in_progress_is_never_read (gs gs' : list Game) :
  Forall2 same_but_row_in_progress gs gs' ->
  totalGames gs' = totalGames gs
  /\ winPercentage gs' = winPercentage gs
  /\ averageTurns gs' = averageTurns gs
  /\ map turns_cell gs' = map turns_cell gs
  /\ chartData gs' = chartData gs.
Proof.
  intros Hgs.
  pose proof (winningGames_same_but_row _ _ Hgs) as Hw.
  pose proof (finishedGames_same_but_row _ _ Hgs) as Hf.
  assert (Hlen : totalGames gs' = totalGames gs).
  { unfold totalGames. symmetry. by eapply Forall2_length. }
  split_and!.
  - done.
  - unfold winPercentage, totalWins. by rewrite Hlen, Hw.
  - unfold averageTurns, totalTurns, totalWins. by rewrite Hw.
  - induction Hgs as [|g g' gs gs' Hg Hgs IH]; [done|].
    simpl. f_equal.
    + symmetry. by apply turns_cell_same_but_row.
    + apply IH; [by apply winningGames_same_but_row
                |by apply finishedGames_same_but_row
                |unfold totalGames; symmetry; by eapply Forall2_length].
  - unfold chartData. by rewrite Hf.
Qed.

(** ** The chart *)

Lemma data_point_contribution g :
  is_finished g -> contribution g = Some (data_point g).
Proof.
  unfold is_finished, contribution, data_point.
  intros [Hg|Hg]; rewrite Hg; by simpl.
Qed.

Lemma contribution_not_finished g : ~ is_finished g -> contribution g = None.
Proof.
  unfold is_finished, contribution. destruct (status (game_data g)); naive_solver.
Qed.

Lemma omap_contribution gs :
  omap contribution gs = map data_point (filter is_finished gs).
Proof.
  induction gs as [|g gs IH]; [done|].
  rewrite filter_cons. change (omap contribution (g :: gs))
    with (match contribution g with
          | Some y => y :: omap contribution gs
          | None => omap contribution gs
          end).
  rewrite IH. destruct (decide (is_finished g)) as [Hg|Hg].
  - by rewrite (data_point_contribution g Hg).
  - by rewrite (contribution_not_finished g Hg).
Qed.

Lemma data_point_range g :
  win_row_typed g -> 1 <= data_point g <= 7.
Proof.
  unfold win_row_typed, row_index_typed, data_point. intros Hg.
  case_bool_decide; [specialize (Hg ltac:(done))|]; lia.
Qed.

(** C8: the data of the chart is made of the contributions of the games,
    oldest first: a WIN gives its [currentRowIndex], a FAIL gives 7, a
    game IN_PROGRESS gives no point; with row indices in [1..6] every
    point is in [1..7], which is the fixed range of the y axis, whose
    tick 7 reads ['FAIL']. *)
Theorem chart_points_between_1_and_7 (gs : list Game) :
  Forall win_row_typed gs ->
  exists ds,
    datasets (chartData gs) = [ds]
    /\ data ds = omap contribution (reverse gs)
    /\ length (data ds) = length (filter is_finished gs)
    /\ Forall (fun y => 1 <= y <= 7) (data ds)
    /\ (forall g, g ∈ gs -> status (game_data g) = WIN ->
          contribution g = Some (currentRowIndex (game_data g))
          /\ 1 <= currentRowIndex (game_data g) <= 6)
    /\ (forall g, status (game_data g) = FAIL -> contribution g = Some 7)
    /\ (forall g, status (game_data g) = IN_PROGRESS -> contribution g = None)
    /\ y_min = 1 /\ y_max = 7
    /\ y_tick_callback 7 = VString "FAIL"
    /\ (forall y, y <> 7 -> y_tick_callback y = VNumber y).
Proof.
  intros Htyped. eexists. split; [reflexivity|]. simpl.
  split_and!; try done.
  - unfold finishedGames. by rewrite omap_contribution.
  - unfold finishedGames. by rewrite length_map, filter_reverse, length_reverse.
  - apply Forall_forall. intros y Hy.
    apply list_elem_of_fmap in Hy as (g & -> & Hg).
    apply data_point_range.
    apply list_elem_of_filter in Hg as [_ Hg].
    rewrite elem_of_reverse in Hg.
    by eapply (proj1 (Forall_forall _ _) Htyped).
  - intros g Hin Hg. unfold contribution. rewrite Hg. split; [done|].
    by apply (proj1 (Forall_forall _ _) Htyped g Hin).
  - intros g Hg. unfold contribution. by rewrite Hg.
  - intros g Hg. unfold contribution. by rewrite Hg.
  - intros y Hy. unfold y_tick_callback. by rewrite bool_decide_false.
Qed.
End RowReaders.

(** ** The labels of the chart *)

Section MonthLabels.
Context `{DateEnv}.

(** After a game, [lastMonth] holds the month of that game, whether the
    callback assigned it or not. *)
Lemma month_labels_cons lastMonth g rest :
  month_labels lastMonth (g :: rest)
  = (if month_differs (getMonth (print_date g)) lastMonth
     then month_year_label (print_date g) else "")
    :: month_labels (Some (getMonth (print_date g))) rest.
Proof.
  simpl. destruct (month_differs _ lastMonth) eqn:Hd; [done|].
  f_equal. f_equal.
  destruct (getMonth (print_date g)) as [|a], lastMonth as [[|b]|];
    simpl in Hd; try done.
  apply negb_false_iff, Nat.eqb_eq in Hd. by subst.
Qed.

Lemma month_labels_length lastMonth gs :
  length (month_labels lastMonth gs) = length gs.
Proof.
  revert lastMonth. induction gs as [|g gs IH]; intros lastMonth; [done|].
  rewrite month_labels_cons. simpl. by rewrite IH.
Qed.

(** The label at a position after the first depends on the game before. *)
Lemma month_labels_lookup_succ gs : forall lastMonth i p g,
  gs !! i = Some p -> gs !! S i = Some g ->
  month_labels lastMonth gs !! S i
  = Some (if month_neq (getMonth (print_date g)) (getMonth (print_date p))
          then month_year_label (print_date g) else "").
Proof.
  induction gs as [|x gs IH]; intros lastMonth i p g Hp Hg; [done|].
  rewrite month_labels_cons. destruct i as [|i].
  - simpl in Hp. simplify_eq. destruct gs as [|y gs]; [done|].
    simpl in Hg. simplify_eq. by rewrite month_labels_cons.
  - simpl in Hp, Hg |- *. by eapply IH.
Qed.

(** The labels in terms of what the platform answers: they have one entry
    per finished game, in the order of the chart; the entry of a game is the text [toLocaleString] gives for it
    when it is the first finished game or when what [getMonth] returns for
    it is not ([!==]) what it returns for the finished game before it, and
    the empty string otherwise.  Both are read from [new Date(print_date)]
    in the local time of the browser. *)
Theorem chart_labels_grouped_by_month (gs : list Game) :
  (forall s, month_year_label s <> "") ->
  let finished := finishedGames gs in
  let ls := labels (chartData gs) in
  length ls = length finished
  /\ (forall g, finished !! 0%nat = Some g ->
        ls !! 0%nat = Some (month_year_label (print_date g)))
  /\ (forall i p g, finished !! i = Some p -> finished !! S i = Some g ->
        ls !! S i
        = Some (if month_neq (getMonth (print_date g)) (getMonth (print_date p))
                then month_year_label (print_date g) else ""))
  /\ (forall i p g l,
        finished !! i = Some p -> finished !! S i = Some g ->
        ls !! S i = Some l ->
        (l <> "" <->
         month_neq (getMonth (print_date g)) (getMonth (print_date p)) = true)
        /\ (l = "" \/ l = month_year_label (print_date g))).
Proof.
  intros Hne finished ls. subst ls. simpl. fold finished. split_and!.
  - apply month_labels_length.
  - intros g Hg. destruct finished as [|x rest]; [done|].
    injection Hg as <-. rewrite month_labels_cons.
    by destruct (getMonth (print_date x)).
  - intros i p g Hp Hg. by eapply month_labels_lookup_succ.
  - intros i p g l Hp Hg Hl.
    rewrite (month_labels_lookup_succ _ _ _ _ _ Hp Hg) in Hl. simplify_eq.
    destruct (month_neq _ _); split; try naive_solver.
Qed.
End MonthLabels.

Lemma utc_en_US_label_not_empty s : @month_year_label utc_en_US s <> "".
Proof.
  simpl. destruct (parse_date s) as [[[y m] d]|]; [|discriminate].
  do 12 (destruct m as [|m]; [discriminate|]). discriminate.
Qed.

(** C6: in a browser behind UTC the labels lag one day behind the
    calendar.  Of three games finished on 29 February, 1 March and 2 March,
    the one of 1 March starts a month and gets no label, and the one of
    2 March gets "Mar 2024"; at UTC the labels follow the months of the
    dates.  A lone game of 1 March is labelled "Feb 2024", while the
    tooltip of the same point shows its [print_date]. *)
Theorem labels_lag_a_day_behind_UTC :
  print_date <$> finishedGames games_at_turn_of_month
  = ["2024-02-29"; "2024-03-01"; "2024-03-02"]
  /\ labels (@chartData behind_UTC_en_US games_at_turn_of_month)
     = ["Feb 2024"; ""; "Mar 2024"]
  /\ labels (@chartData utc_en_US games_at_turn_of_month)
     = ["Feb 2024"; "Mar 2024"; ""]
  /\ (let chart := @chartData behind_UTC_en_US
                     [sample_game "2024-03-01" 986 6 FAIL] in
      labels chart = ["Feb 2024"]
      /\ exists ds, datasets chart = [ds]
                    /\ tooltip_title ds 0 = VString "2024-03-01").
Proof.
  split; [reflexivity|]. split; [by vm_compute|]. split; [by vm_compute|].
  simpl. split; [by vm_compute|]. eexists. split; reflexivity.
Qed.

(** ** Which arrays the computations write *)

Section StoreFrames.

Lemma extends_refl s : Store.extends s s.
Proof. by split. Qed.

Lemma extends_dom s s' a : Store.extends s s' -> a ∈ dom (Store.arrays s) -> a ∈ dom (Store.arrays s').
Proof.
  intros [_ Hs] Ha. apply elem_of_dom. rewrite (Hs a Ha). by apply elem_of_dom.
Qed.

Lemma extends_trans s1 s2 s3 : Store.extends s1 s2 -> Store.extends s2 s3 -> Store.extends s1 s3.
Proof.
  intros H12 H23. pose proof H12 as [Hg12 Ha12]. destruct H23 as [Hg23 Ha23].
  split; [congruence|]. intros a Ha.
  rewrite Ha23; [by apply Ha12|]. by eapply extends_dom.
Qed.

Lemma frames_ret {A} (a : A) : Store.frames (Store.ret a).
Proof. intros s. apply extends_refl. Qed.

Lemma frames_bind {A B} (m : Store.M A) (k : A -> Store.M B) :
  Store.frames m -> (forall a, Store.frames (k a)) -> Store.frames (Store.bind m k).
Proof.
  intros Hm Hk s. unfold Store.bind. specialize (Hm s).
  destruct (m s) as [a s'] eqn:E. simpl in Hm.
  eapply extends_trans; [exact Hm|apply Hk].
Qed.

Lemma frames_read_games : Store.frames Store.read_games.
Proof. intros s. apply extends_refl. Qed.

Lemma frames_elements a : Store.frames (Store.elements a).
Proof. intros s. apply extends_refl. Qed.

Lemma frames_array_new xs : Store.frames (Store.array_new xs).
Proof.
  intros s. split; [done|]. intros a Ha. simpl.
  apply lookup_insert_ne. intros <-. by apply is_fresh in Ha.
Qed.

Lemma frames_array_spread a : Store.frames (Store.array_spread a).
Proof.
  apply frames_bind; [apply frames_elements|intros; apply frames_array_new].
Qed.

Lemma frames_array_filter (P : Game -> Prop) `{forall g, Decision (P g)} a :
  Store.frames (Store.array_filter P a).
Proof.
  apply frames_bind; [apply frames_elements|intros; apply frames_array_new].
Qed.

Lemma frames_array_map {B} (f : Game -> B) a : Store.frames (Store.array_map f a).
Proof. apply frames_bind; [apply frames_elements|intros; apply frames_ret]. Qed.

Lemma frames_array_reduce {B} (f : B -> Game -> B) init a :
  Store.frames (Store.array_reduce f init a).
Proof. apply frames_bind; [apply frames_elements|intros; apply frames_ret]. Qed.

Lemma frames_array_length a : Store.frames (Store.array_length a).
Proof. apply frames_bind; [apply frames_elements|intros; apply frames_ret]. Qed.

(** [reverse] writes the array it is called on: here the fresh copy. *)
Lemma frames_reverse_of_copy {B} a (k : nat -> Store.M B) :
  (forall c, Store.frames (k c)) ->
  Store.frames
    (Store.bind (Store.array_spread a)
       (fun copy => Store.bind (Store.array_reverse copy) k)).
Proof.
  intros Hk s. unfold Store.bind, Store.array_spread, Store.bind, Store.elements, Store.array_new, Store.array_reverse.
  simpl. eapply extends_trans; [|apply Hk].
  split; [done|]. intros b Hb. simpl.
  assert (fresh (dom (Store.arrays s)) <> b) by (intros <-; by apply is_fresh in Hb).
  by rewrite lookup_alter_ne, lookup_insert_ne.
Qed.

Lemma frames_totalGames : Store.frames Store.totalGames.
Proof.
  apply frames_bind; [apply frames_read_games|intros; apply frames_array_length].
Qed.

Lemma frames_winningGames : Store.frames Store.winningGames.
Proof.
  apply frames_bind; [apply frames_read_games|intros; apply frames_array_filter].
Qed.

Lemma frames_totalWins : Store.frames Store.totalWins.
Proof.
  apply frames_bind; [apply frames_winningGames|intros; apply frames_array_length].
Qed.

Lemma frames_winPercentage : Store.frames Store.winPercentage.
Proof.
  apply frames_bind; [apply frames_totalGames|intros n].
  case_bool_decide; [apply frames_ret|].
  apply frames_bind; [apply frames_totalWins|intros].
  apply frames_bind; [apply frames_totalGames|intros; apply frames_ret].
Qed.

Lemma frames_averageTurns : Store.frames Store.averageTurns.
Proof.
  apply frames_bind; [apply frames_totalWins|intros n].
  case_bool_decide; [apply frames_ret|].
  apply frames_bind; [apply frames_winningGames|intros].
  apply frames_bind; [apply frames_array_reduce|intros].
  apply frames_bind; [apply frames_totalWins|intros; apply frames_ret].
Qed.

Lemma frames_chartData `{DateEnv} : Store.frames Store.chartData.
Proof.
  apply frames_bind; [apply frames_read_games|intros g].
  apply frames_reverse_of_copy. intros sorted.
  apply frames_bind; [apply frames_array_filter|intros].
  apply frames_bind; [apply frames_elements|intros].
  do 3 (apply frames_bind; [apply frames_array_map|intros]).
  apply frames_ret.
Qed.

Lemma frames_downloadGames : Store.frames Store.downloadGames.
Proof.
  apply frames_bind; [apply frames_read_games|intros g].
  apply frames_bind; [apply frames_elements|intros; apply frames_ret].
Qed.

(** What a framed computation leaves of [games.value]. *)
Lemma frames_games_unchanged {A} (m : Store.M A) s gs :
  Store.frames m -> Store.arrays s !! Store.games_value s = Some gs ->
  Store.games_value (m s).2 = Store.games_value s
  /\ Store.arrays (m s).2 !! Store.games_value (m s).2 = Some gs.
Proof.
  intros Hm Hgs. destruct (Hm s) as [Hg Ha]. split; [done|].
  rewrite Hg, Ha; [done|]. apply elem_of_dom. by eexists.
Qed.

(** ** The values computed over the store *)

Lemma bind_run {A B} (m : Store.M A) (k : A -> Store.M B) s a s' :
  m s = (a, s') -> Store.bind m k s = k a s'.
Proof. unfold Store.bind. by intros ->. Qed.

Lemma read_games_run s : Store.read_games s = (Store.games_value s, s).
Proof. done. Qed.

Lemma elements_run a s xs :
  Store.arrays s !! a = Some xs -> Store.elements a s = (xs, s).
Proof. unfold Store.elements. by intros ->. Qed.

Lemma extends_games s s' gs :
  Store.extends s s' ->
  Store.arrays s !! Store.games_value s = Some gs ->
  Store.arrays s' !! Store.games_value s' = Some gs.
Proof.
  intros [Hg Ha] Hgs. rewrite Hg, Ha; [done|]. apply elem_of_dom. by eexists.
Qed.

Lemma array_new_run xs s :
  exists a s',
    Store.array_new xs s = (a, s')
    /\ Store.arrays s' !! a = Some xs
    /\ Store.extends s s'.
Proof.
  eexists _, _. split; [reflexivity|]. split; [apply lookup_insert_eq|].
  apply (frames_array_new xs s).
Qed.

Lemma array_filter_run (P : Game -> Prop) `{forall g, Decision (P g)} a s xs :
  Store.arrays s !! a = Some xs ->
  exists b s',
    Store.array_filter P a s = (b, s')
    /\ Store.arrays s' !! b = Some (filter P xs)
    /\ Store.extends s s'.
Proof.
  intros Ha. unfold Store.array_filter.
  rewrite (bind_run _ _ _ _ _ (elements_run _ _ _ Ha)).
  apply array_new_run.
Qed.

Lemma array_spread_run a s xs :
  Store.arrays s !! a = Some xs ->
  exists c s',
    Store.array_spread a s = (c, s')
    /\ Store.arrays s' !! c = Some xs
    /\ Store.extends s s'.
Proof.
  intros Ha. unfold Store.array_spread.
  rewrite (bind_run _ _ _ _ _ (elements_run _ _ _ Ha)).
  apply array_new_run.
Qed.

Lemma array_map_run {B} (f : Game -> B) a s xs :
  Store.arrays s !! a = Some xs -> Store.array_map f a s = (map f xs, s).
Proof.
  intros Ha. unfold Store.array_map.
  by rewrite (bind_run _ _ _ _ _ (elements_run _ _ _ Ha)).
Qed.

Lemma array_reduce_run {B} (f : B -> Game -> B) init a s xs :
  Store.arrays s !! a = Some xs ->
  Store.array_reduce f init a s = (foldl f init xs, s).
Proof.
  intros Ha. unfold Store.array_reduce.
  by rewrite (bind_run _ _ _ _ _ (elements_run _ _ _ Ha)).
Qed.

Lemma totalGames_run s gs :
  Store.arrays s !! Store.games_value s = Some gs ->
  Store.totalGames s = (totalGames gs, s).
Proof.
  intros Hgs. unfold Store.totalGames, Store.array_length.
  rewrite (bind_run _ _ _ _ _ (read_games_run s)).
  by rewrite (bind_run _ _ _ _ _ (elements_run _ _ _ Hgs)).
Qed.

Lemma winningGames_run s gs :
  Store.arrays s !! Store.games_value s = Some gs ->
  exists w s',
    Store.winningGames s = (w, s')
    /\ Store.arrays s' !! w = Some (winningGames gs)
    /\ Store.extends s s'.
Proof.
  intros Hgs. unfold Store.winningGames.
  rewrite (bind_run _ _ _ _ _ (read_games_run s)).
  by apply array_filter_run.
Qed.

Lemma totalWins_run s gs :
  Store.arrays s !! Store.games_value s = Some gs ->
  exists s', Store.totalWins s = (totalWins gs, s') /\ Store.extends s s'.
Proof.
  intros Hgs. unfold Store.totalWins, Store.array_length.
  destruct (winningGames_run s gs Hgs) as (w & s' & E & Hw & Hext).
  rewrite (bind_run _ _ _ _ _ E).
  rewrite (bind_run _ _ _ _ _ (elements_run _ _ _ Hw)).
  by exists s'.
Qed.

Lemma winPercentage_run s gs :
  Store.arrays s !! Store.games_value s = Some gs ->
  (Store.winPercentage s).1 = winPercentage gs.
Proof.
  intros Hgs. unfold Store.winPercentage, winPercentage.
  rewrite (bind_run _ _ _ _ _ (totalGames_run _ _ Hgs)).
  case_bool_decide; [done|].
  destruct (totalWins_run s gs Hgs) as (s' & E & Hext).
  rewrite (bind_run _ _ _ _ _ E).
  by rewrite (bind_run _ _ _ _ _
                (totalGames_run _ _ (extends_games _ _ _ Hext Hgs))).
Qed.

Lemma averageTurns_run s gs :
  Store.arrays s !! Store.games_value s = Some gs ->
  (Store.averageTurns s).1 = averageTurns gs.
Proof.
  intros Hgs. unfold Store.averageTurns, averageTurns.
  destruct (totalWins_run s gs Hgs) as (s1 & E1 & Hext1).
  rewrite (bind_run _ _ _ _ _ E1). case_bool_decide; [done|].
  pose proof (extends_games _ _ _ Hext1 Hgs) as Hgs1.
  destruct (winningGames_run s1 gs Hgs1) as (w & s2 & E2 & Hw & Hext2).
  rewrite (bind_run _ _ _ _ _ E2).
  rewrite (bind_run _ _ _ _ _ (array_reduce_run _ _ _ _ _ Hw)).
  pose proof (extends_games _ _ _ Hext2 Hgs1) as Hgs2.
  destruct (totalWins_run s2 gs Hgs2) as (s3 & E3 & _).
  by rewrite (bind_run _ _ _ _ _ E3).
Qed.

Lemma chartData_run `{DateEnv} s gs :
  Store.arrays s !! Store.games_value s = Some gs ->
  (Store.chartData s).1 = chartData gs.
Proof.
  intros Hgs. unfold Store.chartData, chartData, finishedGames.
  rewrite (bind_run _ _ _ _ _ (read_games_run s)).
  destruct (array_spread_run _ s gs Hgs) as (c & s1 & E1 & Hc & _).
  rewrite (bind_run _ _ _ _ _ E1).
  set (s2 := {| Store.arrays := alter reverse c (Store.arrays s1);
                Store.games_value := Store.games_value s1 |}).
  rewrite (bind_run (Store.array_reverse c) _ s1 c s2 eq_refl).
  assert (Hc2 : Store.arrays s2 !! c = Some (reverse gs)).
  { simpl. by rewrite lookup_alter_eq, Hc. }
  destruct (array_filter_run is_finished c s2 (reverse gs) Hc2)
    as (f & s3 & E3 & Hf & _).
  rewrite (bind_run _ _ _ _ _ E3).
  rewrite (bind_run _ _ _ _ _ (elements_run _ _ _ Hf)).
  by rewrite !(bind_run _ _ _ _ _ (array_map_run _ _ _ _ Hf)).
Qed.

Lemma downloadGames_run s gs :
  Store.arrays s !! Store.games_value s = Some gs ->
  (Store.downloadGames s).1 = downloadGames gs.
Proof.
  intros Hgs. unfold Store.downloadGames.
  rewrite (bind_run _ _ _ _ _ (read_games_run s)).
  by rewrite (bind_run _ _ _ _ _ (elements_run _ _ _ Hgs)).
Qed.

(** Without the copy, [reverse] would reorder [games.value] itself. *)
Lemma reverse_without_copy_run s gs :
  Store.arrays s !! Store.games_value s = Some gs ->
  Store.arrays (Store.reverse_without_copy s).2
    !! Store.games_value (Store.reverse_without_copy s).2
  = Some (reverse gs).
Proof.
  intros Hgs. unfold Store.reverse_without_copy.
  rewrite (bind_run _ _ _ _ _ (read_games_run s)). simpl.
  by rewrite lookup_alter_eq, Hgs.
Qed.

(** C5: each presentation computation returns the value computed from
    the elements of [games.value] and leaves [games.value] the same
    array with the same records in the same order; no array that exists
    when it starts is written.  [chartData] reverses the copy it makes:
    reversing [games.value] itself would reorder it. *)
Theorem presentation_leaves_games_unchanged (s : Store.store) (gs : list Game) :
  Store.arrays s !! Store.games_value s = Some gs ->
  let unchanged (s' : Store.store) :=
    Store.games_value s' = Store.games_value s
    /\ Store.arrays s' !! Store.games_value s' = Some gs
    /\ Store.extends s s' in
  (Store.totalGames s).1 = totalGames gs /\ unchanged (Store.totalGames s).2
  /\ unchanged (Store.winningGames s).2
  /\ (Store.winPercentage s).1 = winPercentage gs
  /\ unchanged (Store.winPercentage s).2
  /\ (Store.averageTurns s).1 = averageTurns gs
  /\ unchanged (Store.averageTurns s).2
  /\ (forall (env : DateEnv),
        (Store.chartData s).1 = chartData gs
        /\ unchanged (Store.chartData s).2)
  /\ (Store.downloadGames s).1 = downloadGames gs
  /\ unchanged (Store.downloadGames s).2
  /\ Store.arrays (Store.reverse_without_copy s).2
       !! Store.games_value (Store.reverse_without_copy s).2
     = Some (reverse gs).
Proof.
  intros Hgs unchanged.
  assert (Hun : forall A (m : Store.M A), Store.frames m -> unchanged (m s).2).
  { intros A m Hm. unfold unchanged.
    destruct (frames_games_unchanged m s gs Hm Hgs) as [? ?].
    split_and!; try done. }
  split_and!.
  - by rewrite (totalGames_run s gs Hgs).
  - apply Hun, frames_totalGames.
  - apply Hun, frames_winningGames.
  - by apply winPercentage_run.
  - apply Hun, frames_winPercentage.
  - by apply averageTurns_run.
  - apply Hun, frames_averageTurns.
  - intros env. split; [by apply chartData_run|apply Hun, frames_chartData].
  - by apply downloadGames_run.
  - apply Hun, frames_downloadGames.
  - by apply reverse_without_copy_run.
Qed.
End StoreFrames.

(** ** Rounding to binary64 *)

(** On a grid of small integers, including the divisions by zero, the
    operations above give the results of the Standard Library's IEEE 754
    specification. *)
Lemma binary64_agrees_with_SpecFloat :
  forallb (fun b => forallb (fun a => agrees_with_SpecFloat (Z.of_nat a) (Z.of_nat b))
                            (seq 0 48))
          (seq 0 48) = true
  /\ number_of_spec (SFdiv 53 1024 (spec_of_Z 1) (spec_of_Z 3))
     = Finite (6004799503160661 # 18014398509481984)
  /\ number_div (of_Z 1) (of_Z 3) = Finite (6004799503160661 # 18014398509481984)
  /\ number_of_spec (SFadd 53 1024 (spec_of_Z (2 ^ 53)) (spec_of_Z 3))
     = number_add (of_Z (2 ^ 53)) (of_Z 3).
Proof. by vm_compute. Qed.

Section Rounding.
Local Open Scope Q_scope.


Lemma pow2_pos e : 0 < pow2 e.
Proof. apply Qpower_0_lt. reflexivity. Qed.

Lemma pow2_plus a b : pow2 (a + b) == pow2 a * pow2 b.
Proof. apply Qpower_plus. discriminate. Qed.

Lemma pow2_le a b : (a <= b)%Z -> pow2 a <= pow2 b.
Proof. intros. apply Qpower_le_compat_l; [done|discriminate]. Qed.

Lemma pow2_lt a b : (a < b)%Z -> pow2 a < pow2 b.
Proof. intros. apply Qpower_lt_compat_l; [done|reflexivity]. Qed.

Lemma pow2_inject e : (0 <= e)%Z -> pow2 e == inject_Z (2 ^ e).
Proof. intros. symmetry. by apply Zpower_Qpower. Qed.

Lemma pow2_succ e : pow2 (e + 1) == 2 * pow2 e.
Proof. rewrite pow2_plus. change (pow2 1) with 2. ring. Qed.

Lemma pow2_opp e : pow2 (- e) == / pow2 e.
Proof. apply Qpower_opp. Qed.

Lemma pow2_frac x y :
  (0 <= x)%Z -> (0 <= y)%Z -> pow2 (x - y) == (2 ^ x) # Z.to_pos (2 ^ y).
Proof.
  intros Hx Hy. replace (x - y)%Z with (x + - y)%Z by lia.
  rewrite pow2_plus, pow2_opp, !pow2_inject by lia.
  rewrite (Qmake_Qdiv (2 ^ x)). rewrite Z2Pos.id by lia. reflexivity.
Qed.

(** [ilog2] brackets [|q|] between two consecutive powers of two. *)
Lemma ilog2_spec q : ~ q == 0 -> pow2 (ilog2 q) <= Qabs q < pow2 (ilog2 q + 1).
Proof.
  intros Hq. unfold ilog2.
  destruct q as [qn qd]. simpl Qnum. simpl Qden.
  set (n := Z.abs qn). set (d := Zpos qd).
  assert (Hn : (0 < n)%Z).
  { unfold n. destruct qn; simpl; try lia. by destruct Hq. }
  assert (Hd : (0 < d)%Z) by (unfold d; lia).
  change (Qabs (qn # qd)) with (n # qd).
  destruct (Z.log2_spec n Hn) as [Hn1 Hn2].
  destruct (Z.log2_spec d Hd) as [Hd1 Hd2].
  pose proof (Z.log2_nonneg n) as Ha. pose proof (Z.log2_nonneg d) as Hb.
  set (a := Z.log2 n) in *. set (b := Z.log2 d) in *.
  assert (HA : (0 < 2 ^ a)%Z) by lia. assert (HB : (0 < 2 ^ b)%Z) by lia.
  assert (Hlow : pow2 (a - b - 1) < n # qd).
  { replace (a - b - 1)%Z with (a - (b + 1))%Z by lia.
    rewrite pow2_frac by lia. unfold Qlt. simpl.
    rewrite Z2Pos.id by lia. fold d. rewrite Z.pow_succ_r in Hd2 by lia.
    replace (2 ^ (b + 1))%Z with (2 * 2 ^ b)%Z by (rewrite Z.pow_add_r; lia).
    nia. }
  assert (Hup : n # qd < pow2 (a - b + 1)).
  { replace (a - b + 1)%Z with (a + 1 - b)%Z by lia.
    rewrite pow2_frac by lia. unfold Qlt. simpl.
    rewrite Z2Pos.id by lia. fold d. rewrite Z.pow_succ_r in Hn2 by lia.
    replace (2 ^ (a + 1))%Z with (2 * 2 ^ a)%Z by (rewrite Z.pow_add_r; lia).
    nia. }
  destruct (Qle_bool (pow2 (a - b)) (n # qd)) eqn:Ht.
  - apply Qle_bool_iff in Ht. split; assumption.
  - assert (~ pow2 (a - b) <= n # qd) as Hlt.
    { intros Hle. apply Qle_bool_iff in Hle. congruence. }
    apply Qnot_le_lt in Hlt.
    replace (a - b - 1 + 1)%Z with (a - b)%Z by lia.
    split; [by apply Qlt_le_weak|done].
Qed.

Lemma ilog2_unique q e :
  pow2 e <= Qabs q < pow2 (e + 1) -> ilog2 q = e.
Proof.
  intros [H1 H2].
  assert (Hq : ~ q == 0).
  { intros Hq. assert (Qabs q == 0) as H0 by (by rewrite Hq).
    pose proof (pow2_pos e). lra. }
  destruct (ilog2_spec q Hq) as [H3 H4].
  destruct (Z.lt_trichotomy (ilog2 q) e) as [Hlt|[Heq|Hgt]]; [|done|].
  - exfalso. assert (pow2 (ilog2 q + 1) <= pow2 e) by (apply pow2_le; lia). lra.
  - exfalso. assert (pow2 (e + 1) <= pow2 (ilog2 q)) by (apply pow2_le; lia). lra.
Qed.

Lemma round_half_even_error x :
  Qabs (inject_Z (round_half_even x) - x) <= 1 # 2.
Proof.
  unfold round_half_even.
  pose proof (Qfloor_le x) as Hlo. pose proof (Qlt_floor x) as Hhi.
  rewrite inject_Z_plus in Hhi. change (inject_Z 1) with 1 in Hhi.
  set (f := Qfloor x) in *.
  apply Qabs_Qle_condition.
  destruct (Qcompare_spec (x - inject_Z f) (1 # 2)) as [He|Hl|Hg].
  - destruct (Z.even f); rewrite ?inject_Z_plus; change (inject_Z 1) with 1; lra.
  - lra.
  - rewrite inject_Z_plus. change (inject_Z 1) with 1. lra.
Qed.

Lemma round_half_even_integer x k : x == inject_Z k -> round_half_even x = k.
Proof.
  intros Hx. unfold round_half_even.
  assert (Qfloor x = k) as -> by (rewrite Hx; apply Qfloor_Z).
  destruct (Qcompare_spec (x - inject_Z k) (1 # 2)); [lra|done|lra].
Qed.

Lemma Qred_inject_Z z : Qred (inject_Z z) = inject_Z z.
Proof. apply Qred_identity. simpl. apply Z.gcd_1_r. Qed.

Lemma Qle_bool_false x y : y < x -> Qle_bool x y = false.
Proof.
  intros Hlt. destruct (Qle_bool x y) eqn:E; [|done].
  apply Qle_bool_iff in E. lra.
Qed.

Lemma Qeq_bool_false x y : ~ x == y -> Qeq_bool x y = false.
Proof.
  intros Hne. destruct (Qeq_bool x y) eqn:E; [|done].
  apply Qeq_bool_iff in E. done.
Qed.

Lemma Qeq_bool_true x y : x == y -> Qeq_bool x y = true.
Proof. apply Qeq_bool_iff. Qed.

(** An integer below [2^53] in magnitude is a binary64 value. *)
Lemma round64_integer q z :
  q == inject_Z z -> (Z.abs z < 2 ^ 53)%Z -> round64 q = Finite (inject_Z z).
Proof.
  intros Hq Hz. unfold round64.
  destruct (Z.eq_dec z 0) as [->|Hz0].
  { by rewrite (Qeq_bool_true q 0 Hq). }
  assert (Hq0 : ~ q == 0).
  { rewrite Hq. intros H0. apply Hz0. by apply (inject_Z_injective z 0). }
  rewrite (Qeq_bool_false _ _ Hq0).
  assert (Hpos : (0 < Z.abs z)%Z) by lia.
  destruct (Z.log2_spec _ Hpos) as [Hl1 Hl2].
  pose proof (Z.log2_nonneg (Z.abs z)) as Ha.
  set (a := Z.log2 (Z.abs z)) in *.
  assert (Ha52 : (a <= 52)%Z).
  { destruct (Z.le_gt_cases a 52) as [?|Hgt]; [done|exfalso].
    assert (2 ^ 53 <= 2 ^ a)%Z by (apply Z.pow_le_mono_r; lia). lia. }
  assert (Habs : Qabs q == inject_Z (Z.abs z)).
  { rewrite Hq. unfold Qabs, inject_Z. reflexivity. }
  assert (Hlog : ilog2 q = a).
  { apply ilog2_unique. rewrite Habs, !pow2_inject by lia.
    rewrite <- Zle_Qle, <- Zlt_Qlt. replace (a + 1)%Z with (Z.succ a) by lia. done. }
  unfold ulp_exponent. rewrite Hlog.
  replace (Z.max (a - 52) (-1074)) with (- (52 - a))%Z by lia.
  set (k := (52 - a)%Z).
  assert (Hk : (0 <= k)%Z) by (unfold k; lia).
  assert (Hp : 0 < pow2 k) by apply pow2_pos.
  assert (Hx : q / pow2 (- k) == inject_Z (z * 2 ^ k)).
  { rewrite pow2_opp, inject_Z_mult, <- pow2_inject, Hq by done.
    field. lra. }
  rewrite (round_half_even_integer _ _ Hx).
  assert (Hr : inject_Z (z * 2 ^ k) * pow2 (- k) == inject_Z z).
  { rewrite pow2_opp, inject_Z_mult, <- pow2_inject by done. field. lra. }
  rewrite Qle_bool_false.
  - by rewrite (Qred_complete _ _ Hr), Qred_inject_Z.
  - rewrite Hr. rewrite <- Hq, Habs, pow2_inject by lia.
    rewrite <- Zlt_Qlt.
    assert (2 ^ 53 < 2 ^ 1024)%Z by (apply Z.pow_lt_mono_r; lia). lia.
Qed.

(** In the normal range the result is finite and within half a unit in
    the last place of the exact value. *)
Lemma round64_error q :
  pow2 (-1022) <= Qabs q <= pow2 1023 ->
  exists r, round64 q = Finite r /\ Qabs (r - q) <= Qabs q * pow2 (-53).
Proof.
  intros [Hlo Hhi]. unfold round64.
  assert (Hq0 : ~ q == 0).
  { intros H0. assert (Qabs q == 0) by (by rewrite H0).
    pose proof (pow2_pos (-1022)). lra. }
  rewrite (Qeq_bool_false _ _ Hq0).
  destruct (ilog2_spec q Hq0) as [He1 He2].
  set (e := ilog2 q) in *.
  assert (He : (-1022 <= e)%Z).
  { destruct (Z.le_gt_cases (-1022) e) as [?|Hgt]; [done|exfalso].
    assert (pow2 (e + 1) <= pow2 (-1022)) by (apply pow2_le; lia). lra. }
  unfold ulp_exponent. fold e.
  replace (Z.max (e - 52) (-1074)) with (e - 52)%Z by lia.
  set (p := pow2 (e - 52)).
  assert (Hp : 0 < p) by apply pow2_pos.
  pose proof (round_half_even_error (q / p)) as Herr.
  set (m := round_half_even (q / p)) in *.
  assert (Hulp : p * (1 # 2) <= Qabs q * pow2 (-53)).
  { assert (p * (1 # 2) == pow2 e * pow2 (-53)) as ->.
    { unfold p. replace (e - 52)%Z with (e + -53 + 1)%Z by lia.
      rewrite pow2_succ, pow2_plus. ring. }
    apply Qmult_le_compat_r; [done|]. apply Qlt_le_weak, pow2_pos. }
  assert (Hdiff : Qabs (inject_Z m * p - q) <= p * (1 # 2)).
  { assert (inject_Z m * p - q == (inject_Z m - q / p) * p) as -> by (field; lra).
    rewrite Qabs_Qmult, (Qabs_pos p) by lra.
    rewrite (Qmult_comm p). apply Qmult_le_compat_r; lra. }
  assert (Hsmall : pow2 (-53) <= 1 # 2).
  { assert (pow2 (-53) <= pow2 (-1)) by (apply pow2_le; lia).
    assert (pow2 (-1) == 1 # 2) by reflexivity. lra. }
  rewrite Qle_bool_false.
  - eexists. split; [reflexivity|]. rewrite Qred_correct. lra.
  - assert (Qabs (inject_Z m * p) <= Qabs q + Qabs q * pow2 (-53)).
    { assert (inject_Z m * p == q + (inject_Z m * p - q)) as -> by ring.
      eapply Qle_trans; [apply Qabs_triangle|]. lra. }
    assert (pow2 1024 == 2 * pow2 1023) as -> by (by rewrite <- pow2_succ).
    pose proof (pow2_pos 1023). pose proof (Qabs_nonneg q).
    assert (Qabs q * pow2 (-53) <= Qabs q * (1 # 2)).
    { rewrite !(Qmult_comm (Qabs q)). apply Qmult_le_compat_r; lra. }
    lra.
Qed.
Lemma pow2_m53_small : 0 < pow2 (-53) /\ pow2 (-53) <= 1 # 1024.
Proof.
  split; [apply pow2_pos|].
  assert (pow2 (-53) <= pow2 (-10)) by (apply pow2_le; lia).
  assert (pow2 (-10) == 1 # 1024) by reflexivity. lra.
Qed.

Lemma of_Z_exact z : (Z.abs z < 2 ^ 53)%Z -> of_Z z = Finite (inject_Z z).
Proof. intros Hz. by apply round64_integer. Qed.

Lemma length_number_exact (n : nat) :
  (Z.of_nat n < 2 ^ 53)%Z -> length_number n = Finite (inject_Z (Z.of_nat n)).
Proof. intros Hn. apply of_Z_exact. lia. Qed.

(** The quotient of two positive integers below [2^53]: between [2^-53]
    and [2^53], and at most [c] if [a <= c * b]. *)
Lemma quotient_bounds (a b c : Z) :
  (0 < a < 2 ^ 53)%Z -> (0 < b < 2 ^ 53)%Z -> (a <= c * b)%Z ->
  pow2 (-53) <= inject_Z a / inject_Z b
  /\ inject_Z a / inject_Z b <= pow2 53
  /\ inject_Z a / inject_Z b <= inject_Z c.
Proof.
  intros Ha Hb Hc.
  assert (Hq : inject_Z a / inject_Z b == a # Z.to_pos b).
  { rewrite (Qmake_Qdiv a), Z2Pos.id by lia. reflexivity. }
  rewrite Hq.
  assert (H1 : pow2 (-53) == 1 # Z.to_pos (2 ^ 53)).
  { change (-53)%Z with (0 - 53)%Z. by rewrite pow2_frac. }
  rewrite H1, pow2_inject by lia.
  unfold Qle. simpl. rewrite !Z2Pos.id by lia.
  split_and!; nia.
Qed.

(** [(w / n) * 100] for counts [w <= n]. *)
Lemma percentage_number (w n : Z) :
  (0 <= w <= n)%Z -> (0 < n < 2 ^ 53)%Z ->
  exists r,
    number_mul (number_div (Finite (inject_Z w)) (Finite (inject_Z n)))
               (Finite (inject_Z 100)) = Finite r
    /\ 0 <= r <= 101
    /\ Qabs (r - inject_Z 100 * inject_Z w / inject_Z n) <= pow2 (-45).
Proof.
  intros Hw Hn. unfold number_div.
  assert (HnQ : 0 < inject_Z n) by (change 0 with (inject_Z 0); rewrite <- Zlt_Qlt; lia).
  rewrite Qeq_bool_false by lra.
  pose proof pow2_m53_small as [He0 He1].
  assert (H45 : pow2 (-45) == 256 * pow2 (-53)).
  { change (-45)%Z with (8 + -53)%Z. rewrite pow2_plus. reflexivity. }
  destruct (Z.eq_dec w 0) as [->|Hw0].
  - assert (H0 : inject_Z 0 / inject_Z n == 0) by (field; lra).
    unfold round64 at 1. rewrite (Qeq_bool_true _ _ H0).
    unfold number_mul, round64. rewrite Qeq_bool_true by reflexivity.
    exists 0. split; [done|]. split; [lra|].
    assert (0 - inject_Z 100 * inject_Z 0 / inject_Z n == 0) as -> by (field; lra).
    change (Qabs 0) with 0. lra.
  - destruct (quotient_bounds w n 1) as (Q1 & Q2 & Q3); [lia|lia|lia|].
    set (q := inject_Z w / inject_Z n) in *.
    change (inject_Z 1) with 1 in Q3.
    assert (Hqpos : 0 < q) by lra.
    destruct (round64_error q) as (r1 & -> & E1).
    { rewrite Qabs_pos by lra. split.
      - apply Qle_trans with (pow2 (-53)); [apply pow2_le; lia|done].
      - apply Qle_trans with (pow2 53); [done|apply pow2_le; lia]. }
    rewrite (Qabs_pos q) in E1 by lra.
    apply Qabs_Qle_condition in E1.
    assert (Hqe : q * pow2 (-53) <= q * (1 # 2)).
    { rewrite !(Qmult_comm q). apply Qmult_le_compat_r; lra. }
    assert (Hqe1 : q * pow2 (-53) <= pow2 (-53)).
    { rewrite <- (Qmult_1_l (pow2 (-53))) at 2. apply Qmult_le_compat_r; lra. }
    assert (Hr1 : q * (1 # 2) <= r1 <= (3 # 2)) by lra.
    unfold number_mul.
    set (x := r1 * inject_Z 100).
    assert (Hx : x == 100 * r1) by (unfold x; change (inject_Z 100) with 100; ring).
    clearbody x.
    destruct (round64_error x) as (r & -> & E2).
    { rewrite Qabs_pos by lra. split.
      - apply Qle_trans with (pow2 (-53)); [apply pow2_le; lia|]. lra.
      - apply Qle_trans with (pow2 8); [|apply pow2_le; lia].
        change (pow2 8) with 256. lra. }
    rewrite (Qabs_pos x) in E2 by lra.
    apply Qabs_Qle_condition in E2.
    assert (Hxe : x * pow2 (-53) <= 150 * pow2 (-53)).
    { apply Qmult_le_compat_r; lra. }
    assert (Hxe2 : x * pow2 (-53) <= x * (1 # 2)).
    { rewrite !(Qmult_comm x). apply Qmult_le_compat_r; lra. }
    exists r. split; [done|]. split; [lra|].
    assert (inject_Z 100 * inject_Z w / inject_Z n == 100 * q) as ->.
    { unfold q. change (inject_Z 100) with 100. field. lra. }
    apply Qabs_Qle_condition. lra.
Qed.

(** [s / w] for a sum [s] of [w] rows between 1 and 6. *)
Lemma average_number (s w : Z) :
  (0 < w < 2 ^ 50)%Z -> (w <= s <= 6 * w)%Z ->
  exists r,
    number_div (Finite (inject_Z s)) (Finite (inject_Z w)) = Finite r
    /\ 0 <= r <= 7
    /\ Qabs (r - inject_Z s / inject_Z w) <= pow2 (-50).
Proof.
  intros Hw Hs. unfold number_div.
  assert (2 ^ 50 * 8 = 2 ^ 53)%Z by reflexivity.
  assert (HwQ : 0 < inject_Z w) by (change 0 with (inject_Z 0); rewrite <- Zlt_Qlt; lia).
  rewrite Qeq_bool_false by lra.
  pose proof pow2_m53_small as [He0 He1].
  assert (H50 : pow2 (-50) == 8 * pow2 (-53)).
  { change (-50)%Z with (3 + -53)%Z. rewrite pow2_plus. reflexivity. }
  destruct (quotient_bounds s w 6) as (Q1 & Q2 & Q3); [lia|lia|lia|].
  set (q := inject_Z s / inject_Z w) in *.
  change (inject_Z 6) with 6 in Q3.
  assert (Hqpos : 0 < q) by lra.
  destruct (round64_error q) as (r & -> & E).
  { rewrite Qabs_pos by lra. split.
    - apply Qle_trans with (pow2 (-53)); [apply pow2_le; lia|done].
    - apply Qle_trans with (pow2 53); [done|apply pow2_le; lia]. }
  rewrite (Qabs_pos q) in E by lra.
  apply Qabs_Qle_condition in E.
  assert (Hqe : q * pow2 (-53) <= 6 * pow2 (-53)).
  { apply Qmult_le_compat_r; lra. }
  assert (Hqe2 : q * pow2 (-53) <= q * (1 # 2)).
  { rewrite !(Qmult_comm q). apply Qmult_le_compat_r; lra. }
  exists r. split; [done|]. split; [lra|].
  apply Qabs_Qle_condition. lra.
Qed.
End Rounding.

(** ** Formatting *)

Lemma all_digits_app s t :
  all_digits (s ++ t) = all_digits s && all_digits t.
Proof. induction s as [|c s IH]; [done|]. simpl. by rewrite IH, andb_assoc. Qed.

Lemma pretty_N_char_digit x : is_digit (pretty_N_char x) = true.
Proof. unfold pretty_N_char. by repeat case_match. Qed.

Lemma pretty_N_go_digits x : forall s,
  all_digits s = true -> all_digits (pretty_N_go x s) = true.
Proof.
  induction (N.lt_wf_0 x) as [x _ IH]. intros s Hs.
  destruct (decide (x = 0%N)) as [->|Hx]; [by rewrite pretty_N_go_0|].
  rewrite pretty_N_go_step by lia. apply IH.
  - apply N.div_lt; lia.
  - simpl. by rewrite pretty_N_char_digit.
Qed.

Lemma pretty_N_go_not_empty x : forall s, s <> "" -> pretty_N_go x s <> "".
Proof.
  induction (N.lt_wf_0 x) as [x _ IH]. intros s Hs.
  destruct (decide (x = 0%N)) as [->|Hx]; [by rewrite pretty_N_go_0|].
  rewrite pretty_N_go_step by lia. apply IH; [apply N.div_lt; lia|done].
Qed.

Lemma pretty_Z_digits z :
  0 <= z -> all_digits (pretty z) = true /\ pretty z <> "".
Proof.
  intros Hz. destruct z as [|p|p]; [done| |lia].
  unfold pretty, pretty_Z, pretty, pretty_positive, pretty, pretty_N.
  rewrite decide_False by done. split.
  - by apply pretty_N_go_digits.
  - rewrite pretty_N_go_step by lia. by apply pretty_N_go_not_empty.
Qed.

Lemma two_digits m :
  0 <= m < 100 ->
  all_digits (pad_zeros 2 (pretty m)) = true
  /\ String.length (pad_zeros 2 (pretty m)) = 2%nat.
Proof.
  intros Hm. assert (exists k : nat, (k < 100)%nat /\ m = Z.of_nat k) as (k & Hk & ->).
  { exists (Z.to_nat m). lia. }
  clear Hm. do 100 (destruct k as [|k]; [by vm_compute|]). lia.
Qed.

Lemma fixed2_decimal q : (0 <= q)%Q -> decimal_with_2_digits (fixed2 q).
Proof.
  intros Hq. unfold fixed2.
  set (n := Qfloor (q * inject_Z 100 + (1 # 2))).
  assert (Hn : 0 <= n).
  { unfold n. change 0 with (Qfloor 0). apply Qfloor_resp_le.
    change (inject_Z 100) with 100%Q. lra. }
  destruct (pretty_Z_digits (n / 100)) as [Hd Hne]; [apply Z.div_pos; lia|].
  destruct (two_digits (n mod 100)) as [Hf Hl]; [apply Z.mod_pos_bound; lia|].
  by exists (pretty (n / 100)), (pad_zeros 2 (pretty (n mod 100))).
Qed.

Lemma is_negative_false q : (0 <= q)%Q -> is_negative q = false.
Proof.
  intros Hq. unfold is_negative. apply negb_false_iff. by apply Qle_bool_iff.
Qed.

Lemma toFixed_2 q :
  (0 <= q <= 101)%Q -> toFixed 2 (Finite q) = Some (fixed2 q).
Proof.
  intros [H0 H1]. unfold toFixed.
  rewrite Qle_bool_false.
  - rewrite is_negative_false by done. unfold fixed2.
    change (10 ^ Z.of_nat 2) with 100.
    assert (Qfloor (Qabs q * inject_Z 100 + (1 # 2))
            = Qfloor (q * inject_Z 100 + (1 # 2))) as ->; [|done].
    apply Qfloor_comp. by rewrite Qabs_pos.
  - rewrite Qabs_pos by done.
    apply Qle_lt_trans with 101%Q; [done|]. reflexivity.
Qed.

(** ** The summary statistics *)

Lemma totalWins_count gs : totalWins gs = count_status WIN gs.
Proof.
  unfold totalWins, winningGames. induction gs as [|g gs IH]; [done|].
  rewrite filter_cons. simpl. case_bool_decide.
  - rewrite decide_True by done. simpl. by rewrite IH.
  - by rewrite decide_False.
Qed.

Lemma count_status_le st gs : (count_status st gs <= length gs)%nat.
Proof. induction gs as [|g gs IH]; simpl; [lia|]. case_bool_decide; lia. Qed.

Lemma sum_rows_of_wins_bounds gs :
  Forall win_row_typed gs ->
  Z.of_nat (count_status WIN gs) <= sum_rows_of_wins gs
  <= 6 * Z.of_nat (count_status WIN gs).
Proof.
  induction 1 as [|g gs Hg _ IH]; simpl; [lia|].
  unfold win_row_typed, row_index_typed in Hg. case_bool_decide; [|lia].
  specialize (Hg ltac:(done)). lia.
Qed.

Lemma totalTurns_from gs : forall a,
  Forall win_row_typed gs ->
  0 <= a -> a + 6 * Z.of_nat (length gs) < 2 ^ 53 ->
  foldl (fun sum game => number_add sum (of_Z (currentRowIndex (game_data game))))
        (Finite (inject_Z a)) (winningGames gs)
  = Finite (inject_Z (a + sum_rows_of_wins gs)).
Proof.
  unfold winningGames. induction gs as [|g gs IH]; intros a Hty Ha Hlen.
  - simpl. by rewrite Z.add_0_r.
  - apply Forall_cons in Hty as [Hg Hty].
    unfold win_row_typed, row_index_typed in Hg.
    rewrite filter_cons. simpl sum_rows_of_wins. simpl length in Hlen.
    case_bool_decide.
    + specialize (Hg ltac:(done)).
      rewrite decide_True by done. simpl foldl.
      rewrite of_Z_exact by lia. simpl number_add.
      rewrite (round64_integer _ (a + currentRowIndex (game_data g)));
        [|by rewrite inject_Z_plus|lia].
      rewrite IH; [|done|lia|lia]. f_equal. f_equal. lia.
    + rewrite decide_False by done. apply IH; [done|lia|lia].
Qed.

Lemma totalTurns_exact gs :
  Forall win_row_typed gs -> Z.of_nat (length gs) < 2 ^ 50 ->
  totalTurns gs = Finite (inject_Z (sum_rows_of_wins gs)).
Proof.
  intros Hty Hlen. unfold totalTurns. rewrite of_Z_exact by done.
  assert (2 ^ 50 * 8 = 2 ^ 53) by reflexivity.
  rewrite totalTurns_from; [done|done|lia|lia].
Qed.

Lemma winPercentage_value gs :
  gs <> [] -> Z.of_nat (length gs) < 2 ^ 53 ->
  exists r,
    number_mul
      (number_div (Finite (inject_Z (Z.of_nat (count_status WIN gs))))
                  (Finite (inject_Z (Z.of_nat (length gs)))))
      (Finite (inject_Z 100)) = Finite r
    /\ (0 <= r)%Q
    /\ (Qabs (r - inject_Z 100 * inject_Z (Z.of_nat (count_status WIN gs))
                  / inject_Z (Z.of_nat (length gs))) <= pow2 (-45))%Q
    /\ winPercentage gs = Some (fixed2 r ++ "%").
Proof.
  intros Hne Hlen.
  assert (Hpos : (0 < length gs)%nat) by (destruct gs; [done|simpl; lia]).
  pose proof (count_status_le WIN gs) as Hle.
  destruct (percentage_number (Z.of_nat (count_status WIN gs)) (Z.of_nat (length gs)))
    as (r & Hr & Hrange & Herr); [lia|lia|].
  exists r. split_and!; [done|apply Hrange|done|].
  unfold winPercentage, totalGames. rewrite bool_decide_false by lia.
  rewrite totalWins_count, !length_number_exact by lia.
  rewrite of_Z_exact by (simpl; lia).
  rewrite Hr. by rewrite toFixed_2.
Qed.

Lemma averageTurns_value gs :
  count_status WIN gs <> O -> Forall win_row_typed gs ->
  Z.of_nat (length gs) < 2 ^ 50 ->
  exists r,
    number_div (Finite (inject_Z (sum_rows_of_wins gs)))
               (Finite (inject_Z (Z.of_nat (count_status WIN gs)))) = Finite r
    /\ (0 <= r)%Q
    /\ (Qabs (r - inject_Z (sum_rows_of_wins gs)
                  / inject_Z (Z.of_nat (count_status WIN gs))) <= pow2 (-50))%Q
    /\ averageTurns gs = Some (fixed2 r).
Proof.
  intros Hwins Hty Hlen.
  pose proof (count_status_le WIN gs) as Hle.
  pose proof (sum_rows_of_wins_bounds gs Hty) as Hsum.
  destruct (average_number (sum_rows_of_wins gs) (Z.of_nat (count_status WIN gs)))
    as (r & Hr & Hrange & Herr); [lia|lia|].
  assert (2 ^ 50 * 8 = 2 ^ 53) by reflexivity.
  exists r. split_and!; [done|apply Hrange|done|].
  unfold averageTurns. rewrite totalWins_count, bool_decide_false by done.
  rewrite totalTurns_exact, length_number_exact by (done || lia).
  rewrite Hr. apply toFixed_2. split; [apply Hrange|].
  destruct Hrange. lra.
Qed.

(** C9: on an empty list [winPercentage] is ['0.00%'], and without a win
    [averageTurns] is ['N/A']: the guards answer before the division, whose
    quotient [0 / 0] would have been rendered ['NaN'].  In every other case
    the divisor is not zero and the result is a decimal with two fraction
    digits (for a list within the length of an array, and row indices
    within their declared range). *)
Theorem statistics_never_divide_by_zero :
  winPercentage [] = Some "0.00%"
  /\ toFixed 2 (number_mul (number_div (length_number 0) (length_number 0))
                           (of_Z 100)) = Some "NaN"
  /\ (forall gs, totalWins gs = O -> averageTurns gs = Some "N/A")
  /\ toFixed 2 (number_div (of_Z 0) (length_number 0)) = Some "NaN"
  /\ (forall gs, gs <> [] -> Z.of_nat (length gs) < 2 ^ 32 ->
        length_number (totalGames gs) <> Finite 0
        /\ exists s, winPercentage gs = Some (s ++ "%")
                     /\ decimal_with_2_digits s)
  /\ (forall gs, totalWins gs <> O -> Z.of_nat (length gs) < 2 ^ 32 ->
        Forall win_row_typed gs ->
        length_number (totalWins gs) <> Finite 0
        /\ exists s, averageTurns gs = Some s /\ decimal_with_2_digits s).
Proof.
  assert (Hbound : forall n : nat, Z.of_nat n < 2 ^ 32 -> Z.of_nat n < 2 ^ 50).
  { intros n Hn.
    assert (2 ^ 32 < 2 ^ 50) by (apply Z.pow_lt_mono_r; lia). lia. }
  assert (H5053 : 2 ^ 50 < 2 ^ 53) by (apply Z.pow_lt_mono_r; lia).
  assert (Hnz : forall n : nat, n <> O -> Z.of_nat n < 2 ^ 32 ->
                length_number n <> Finite 0).
  { intros n Hn0 Hn. rewrite length_number_exact by (apply Hbound in Hn; lia).
    intros [= Heq]. lia. }
  split_and!.
  - done.
  - by vm_compute.
  - intros gs Hw. unfold averageTurns. by rewrite bool_decide_true.
  - by vm_compute.
  - intros gs Hne Hlen. split.
    { apply Hnz; [|done]. unfold totalGames. by destruct gs. }
    destruct (winPercentage_value gs Hne) as (r & _ & Hr & _ & ->).
    { apply Hbound in Hlen. lia. }
    eexists. split; [done|]. by apply fixed2_decimal.
  - intros gs Hw Hlen Hty. split.
    { apply Hnz; [done|]. pose proof (count_status_le WIN gs).
      rewrite totalWins_count. lia. }
    rewrite totalWins_count in Hw.
    destruct (averageTurns_value gs Hw Hty) as (r & _ & Hr & _ & ->).
    { by apply Hbound. }
    eexists. split; [done|]. by apply fixed2_decimal.
Qed.

(** C10: for a non-empty list, [winPercentage] is the number of WIN games
    divided by the number of games, times 100, as computed in binary64
    (within [2^-45] of the exact value), rendered with two fraction digits
    and a ['%']; with at least one win, [averageTurns] is the sum of
    [currentRowIndex] over the WIN games divided by their number (within
    [2^-50] of the exact mean), rendered with two fraction digits.  Games
    that are not wins do not enter the average. *)
Theorem statistics_are_ratio_and_mean (gs : list Game) :
  Z.of_nat (length gs) < 2 ^ 32 ->
  let wins := Z.of_nat (count_status WIN gs) in
  let total := Z.of_nat (length gs) in
  let turns := sum_rows_of_wins gs in
  (gs <> [] ->
   exists r,
     number_mul (number_div (Finite (inject_Z wins)) (Finite (inject_Z total)))
                (Finite (inject_Z 100)) = Finite r
     /\ (Qabs (r - inject_Z 100 * inject_Z wins / inject_Z total) <= pow2 (-45))%Q
     /\ winPercentage gs = Some (fixed2 r ++ "%"))
  /\ (wins <> 0 -> Forall win_row_typed gs ->
      exists r,
        number_div (Finite (inject_Z turns)) (Finite (inject_Z wins)) = Finite r
        /\ (Qabs (r - inject_Z turns / inject_Z wins) <= pow2 (-50))%Q
        /\ averageTurns gs = Some (fixed2 r))
  /\ averageTurns (winningGames gs) = averageTurns gs
  /\ sum_rows_of_wins (winningGames gs) = turns
  /\ Forall (fun g => status (game_data g) = WIN) (winningGames gs).
Proof.
  intros Hlen wins total turns.
  assert (Hb : Z.of_nat (length gs) < 2 ^ 50).
  { assert (2 ^ 32 < 2 ^ 50) by (apply Z.pow_lt_mono_r; lia). lia. }
  assert (H5053 : 2 ^ 50 < 2 ^ 53) by (apply Z.pow_lt_mono_r; lia).
  assert (Hidem : winningGames (winningGames gs) = winningGames gs).
  { unfold winningGames. rewrite list_filter_filter.
    apply list_filter_iff. intros g. tauto. }
  split_and!.
  - intros Hne. destruct (winPercentage_value gs Hne) as (r & ? & _ & ? & ?); [lia|].
    by exists r.
  - intros Hw Hty. destruct (averageTurns_value gs) as (r & ? & _ & ? & ?);
      [unfold wins in Hw; lia|done|done|]. by exists r.
  - unfold averageTurns, totalTurns, totalWins. by rewrite Hidem.
  - unfold turns, winningGames. clear. induction gs as [|g gs IH]; [done|].
    rewrite filter_cons. simpl. case_bool_decide.
    + rewrite decide_True by done. simpl. rewrite bool_decide_true by done.
      by rewrite IH.
    + by rewrite decide_False.
  - apply Forall_forall. intros g Hg. unfold winningGames in Hg.
    by apply list_elem_of_filter in Hg as [? _].
Qed.

(** ** The JSON export *)

Lemma status_name_inj s s' : status_name s = status_name s' -> s = s'.
Proof. by destruct s, s'. Qed.

Lemma json_of_game_inj g g' : json_of_game g = json_of_game g' -> g = g'.
Proof.
  destruct g as [? ? ? ? ? [[? ? ? ? ? ?] ? ? st] ?],
           g' as [? ? ? ? ? [[? ? ? ? ? ?] ? ? st'] ?].
  unfold json_of_game, json_of_game_data, json_of_board. simpl.
  intros H. simplify_eq.
  match goal with H : status_name _ = status_name _ |- _ =>
    apply status_name_inj in H end.
  by subst.
Qed.

Lemma json_of_games_inj gs gs' : json_of_games gs = json_of_games gs' -> gs = gs'.
Proof.
  unfold json_of_games. intros [= H]. revert gs' H.
  induction gs as [|g gs IH]; intros [|g' gs'] H; try done.
  change (json_of_game g :: map json_of_game gs
          = json_of_game g' :: map json_of_game gs') in H.
  assert (Hg : json_of_game g = json_of_game g') by congruence.
  assert (Hgs : map json_of_game gs = map json_of_game gs') by congruence.
  f_equal; [by apply json_of_game_inj|by apply IH].
Qed.

(** ** The text of the export determines the games *)

Lemma string_app_assoc (a b c : string) : (a ++ b) ++ c = a ++ (b ++ c).
Proof.
  induction a as [|x a IH]; [done|].
  change (String x ((a ++ b) ++ c) = String x (a ++ (b ++ c))). by f_equal.
Qed.

Lemma string_app_cancel (a b c : string) : a ++ b = a ++ c -> b = c.
Proof.
  induction a as [|x a IH]; [done|].
  change (String x (a ++ b) = String x (a ++ c) -> b = c).
  intros [= H]. by apply IH.
Qed.

Lemma string_prefix_app u t : string_prefix u (u ++ t) = true.
Proof.
  induction u as [|a u IH]; [done|].
  change (bool_decide (a = a) && string_prefix u (u ++ t) = true).
  by rewrite bool_decide_true, IH.
Qed.

(** Two ways of splitting one string: one head is a prefix of the other. *)
Lemma string_app_eq_prefix u : forall u' x x',
  u ++ x = u' ++ x' ->
  string_prefix u u' = true \/ string_prefix u' u = true.
Proof.
  induction u as [|a u IH]; intros [|a' u'] x x' H; simpl; auto.
  simpl in H. injection H as -> H. rewrite !bool_decide_true by done. simpl.
  by eapply IH.
Qed.

Lemma in_all_ascii c : In c all_ascii.
Proof.
  unfold all_ascii. rewrite <- (ascii_nat_embedding c).
  apply in_map, in_seq. pose proof (nat_ascii_bounded c). lia.
Qed.

Lemma escape_is_prefix_code_true : escape_is_prefix_code = true.
Proof. by vm_compute. Qed.

Lemma escape_char_prefix c c' :
  string_prefix (escape_char c) (escape_char c') = true -> c = c'.
Proof.
  intros Hp. pose proof escape_is_prefix_code_true as H.
  unfold escape_is_prefix_code in H. rewrite forallb_forall in H.
  specialize (H c (in_all_ascii c)). apply andb_prop in H as [H _].
  rewrite forallb_forall in H. specialize (H c' (in_all_ascii c')).
  rewrite Hp in H. simpl in H. by apply bool_decide_eq_true in H.
Qed.

Lemma escape_char_head c :
  exists h t, escape_char c = String h t /\ h <> double_quote.
Proof.
  pose proof escape_is_prefix_code_true as H.
  unfold escape_is_prefix_code in H. rewrite forallb_forall in H.
  specialize (H c (in_all_ascii c)). apply andb_prop in H as [_ H].
  destruct (escape_char c) as [|h t]; [done|].
  exists h, t. split; [done|]. apply negb_true_iff, bool_decide_eq_false in H. done.
Qed.

(** A quoted string ends at its closing quote. *)
Lemma escape_split s : forall s' a b,
  escape s ++ String double_quote a = escape s' ++ String double_quote b ->
  s = s' /\ a = b.
Proof.
  induction s as [|c s IH]; intros [|c' s'] a b H; simpl in H.
  - by injection H.
  - exfalso. destruct (escape_char_head c') as (h & t & E & Hh).
    rewrite E in H. simpl in H. injection H as H _. by apply Hh.
  - exfalso. destruct (escape_char_head c) as (h & t & E & Hh).
    rewrite E in H. simpl in H. injection H as H _. by apply Hh.
  - rewrite !string_app_assoc in H.
    assert (c = c') as <-.
    { destruct (string_app_eq_prefix _ _ _ _ H) as [Hp|Hp].
      - by apply escape_char_prefix.
      - symmetry. by apply escape_char_prefix. }
    apply string_app_cancel in H. apply IH in H as [-> ->]. done.
Qed.

Lemma quote_split s s' a b :
  quote s ++ a = quote s' ++ b -> s = s' /\ a = b.
Proof.
  unfold quote. simpl. rewrite !string_app_assoc. simpl.
  intros [= H]. by apply escape_split in H.
Qed.

Lemma pretty_N_go_number_chars x : forall s,
  all_number_chars s = true -> all_number_chars (pretty_N_go x s) = true.
Proof.
  induction (N.lt_wf_0 x) as [x _ IH]. intros s Hs.
  destruct (decide (x = 0%N)) as [->|Hx]; [by rewrite pretty_N_go_0|].
  rewrite pretty_N_go_step by lia. apply IH.
  - apply N.div_lt; lia.
  - simpl. unfold is_number_char. by rewrite pretty_N_char_digit.
Qed.

Lemma pretty_Z_number_chars (z : Z) : all_number_chars (pretty z) = true.
Proof.
  destruct z as [|p|p]; [done|..];
    unfold pretty, pretty_Z, pretty, pretty_positive, pretty, pretty_N;
    rewrite decide_False by done.
  - by apply pretty_N_go_number_chars.
  - simpl. by apply pretty_N_go_number_chars.
Qed.

(** A run of number characters ends at the first other character. *)
Lemma number_chars_split u : forall u' c c' a b,
  all_number_chars u = true -> all_number_chars u' = true ->
  is_number_char c = false -> is_number_char c' = false ->
  u ++ String c a = u' ++ String c' b ->
  u = u' /\ String c a = String c' b.
Proof.
  induction u as [|x u IH]; intros [|x' u'] c c' a b Hu Hu' Hc Hc' H;
    simpl in *.
  - done.
  - injection H as -> _. apply andb_prop in Hu' as [Hx _]. congruence.
  - injection H as -> _. apply andb_prop in Hu as [Hx _]. congruence.
  - injection H as -> H. apply andb_prop in Hu as [_ Hu].
    apply andb_prop in Hu' as [_ Hu'].
    destruct (IH _ _ _ _ _ Hu Hu' Hc Hc' H) as [-> ?]. done.
Qed.

Lemma number_split (z z' : Z) c c' a b :
  is_number_char c = false -> is_number_char c' = false ->
  pretty z ++ String c a = pretty z' ++ String c' b ->
  z = z' /\ String c a = String c' b.
Proof.
  intros Hc Hc' H.
  destruct (number_chars_split _ _ _ _ _ _ (pretty_Z_number_chars z)
              (pretty_Z_number_chars z') Hc Hc' H) as [Hz ?].
  split; [|done]. by apply (inj pretty).
Qed.

Lemma number_split_comma (z z' : Z) a b :
  pretty z ++ "," ++ a = pretty z' ++ "," ++ b -> z = z' /\ a = b.
Proof.
  intros H. apply number_split in H as [-> H]; [|done..].
  injection H as H. done.
Qed.

Lemma bool_split (x y : bool) a b :
  (if x then "true" else "false") ++ a = (if y then "true" else "false") ++ b ->
  x = y /\ a = b.
Proof. destruct x, y; simpl; intros [= H]; done. Qed.

Lemma game_text_split g g' rest rest' :
  game_text g rest = game_text g' rest' -> g = g' /\ rest = rest'.
Proof.
  destruct g as [i u d p s [[r0 r1 r2 r3 r4 r5] cri hm st] f],
           g' as [i' u' d' p' s' [[r0' r1' r2' r3' r4' r5'] cri' hm' st'] f'].
  unfold game_text, json_of_game, json_of_game_data, json_of_board.
  cbn -[quote pretty String.append].
  rewrite !string_app_assoc. intros H.
  repeat first
    [ apply quote_split in H as [? H]
    | apply number_split_comma in H as [? H]
    | apply bool_split in H as [? H]
    | apply string_app_cancel in H ].
  apply status_name_inj in H29. by subst.
Qed.

Lemma games_text_inj g : forall gs g' gs',
  games_text g gs = games_text g' gs' -> g = g' /\ gs = gs'.
Proof.
  intros gs. revert g. induction gs as [|g2 gs IH]; intros g g' [|g2' gs'] H;
    simpl in H; apply game_text_split in H as [-> H].
  - done.
  - discriminate.
  - discriminate.
  - injection H as H. apply IH in H as [-> ->]. done.
Qed.

Lemma stringify_games_cons g gs :
  JSON_stringify_2 (json_of_games (g :: gs))
  = "[" ++ newline ++ "  " ++ games_text g gs.
Proof.
  unfold JSON_stringify_2, json_of_games.
  change (serialize "  " "" (JArray (map json_of_game (g :: gs))))
    with ("[" ++ newline ++ "  "
          ++ String.concat ("," ++ newline ++ "  ")
               (map (serialize "  " "  ") (map json_of_game (g :: gs)))
          ++ newline ++ "]").
  do 3 f_equal. revert g. induction gs as [|g2 gs IH]; intros g; [done|].
  change (games_text g (g2 :: gs))
    with (game_text g ("," ++ newline ++ "  " ++ games_text g2 gs)).
  rewrite <- IH. unfold game_text.
  change (String.concat ("," ++ newline ++ "  ")
            (map (serialize "  " "  ") (map json_of_game (g :: g2 :: gs))))
    with (serialize "  " "  " (json_of_game g)
          ++ ("," ++ newline ++ "  ")
          ++ String.concat ("," ++ newline ++ "  ")
               (map (serialize "  " "  ") (map json_of_game (g2 :: gs)))).
  by rewrite !string_app_assoc.
Qed.

(** The text of the export determines the list of games. *)
Lemma stringify_games_inj gs gs' :
  JSON_stringify_2 (json_of_games gs) = JSON_stringify_2 (json_of_games gs') ->
  gs = gs'.
Proof.
  destruct gs as [|g gs], gs' as [|g' gs']; [done|..];
    rewrite ?stringify_games_cons.
  - discriminate.
  - discriminate.
  - intros H. apply string_app_cancel in H. injection H as H.
    apply games_text_inj in H as [-> ->]. done.
Qed.

(** C7: [downloadGames] offers a file named [wordle_games.json] whose
    text is the two-space JSON rendering of the whole array: one object
    per loaded game, at the same position and holding every field of the
    record.  Nothing is filtered or transformed away: the text of the file
    determines the list of games. *)
Theorem downloadGames_exports_every_game (gs : list Game) :
  download (downloadGames gs) = "wordle_games.json"
  /\ blob_type (downloadGames gs) = "application/json"
  /\ blob_text (downloadGames gs) = JSON_stringify_2 (JArray (map json_of_game gs))
  /\ length (map json_of_game gs) = length gs
  /\ (forall i, map json_of_game gs !! i = json_of_game <$> gs !! i)
  /\ (forall g g', json_of_game g = json_of_game g' -> g = g')
  /\ (forall gs', json_of_games gs' = json_of_games gs -> gs' = gs)
  /\ (forall gs', blob_text (downloadGames gs') = blob_text (downloadGames gs) ->
         gs' = gs).
Proof.
  split_and!; try done.
  - apply length_map.
  - intros i. apply list_lookup_fmap.
  - apply json_of_game_inj.
  - intros gs'. apply json_of_games_inj.
  - intros gs'. apply stringify_games_inj.
Qed.

(** ** Instances on the sample records *)

Lemma row_of_game_in_progress_is_never_read_witness :
  let gs' := with_row 0 (sample_game "2024-04-01" 1017 3 IN_PROGRESS)
             :: tail sample_games in
  Forall2 same_but_row_in_progress sample_games gs'
  /\ averageTurns gs' = averageTurns sample_games
  /\ @chartData utc_en_US gs' = @chartData utc_en_US sample_games.
Proof.
  assert (H : Forall2 same_but_row_in_progress sample_games
                (with_row 0 (sample_game "2024-04-01" 1017 3 IN_PROGRESS)
                 :: tail sample_games)).
  { constructor.
    - right. split; [reflexivity|]. by exists 0.
    - simpl. repeat (constructor; [by left|]). constructor. }
  split; [exact H|].
  destruct (@row_of_game_in_progress_is_never_read utc_en_US _ _ H)
    as (_ & _ & Ha & _ & Hc).
  by split.
Defined.

Lemma sample_games_typed : Forall win_row_typed sample_games.
Proof.
  repeat constructor; unfold win_row_typed, row_index_typed; simpl; intros; lia.
Qed.

Lemma chart_points_between_1_and_7_witness :
  Forall win_row_typed sample_games
  /\ exists ds, datasets (@chartData utc_en_US sample_games) = [ds]
                /\ data ds = [2; 4; 7].
Proof.
  split; [exact sample_games_typed|].
  destruct (@chart_points_between_1_and_7 utc_en_US sample_games sample_games_typed)
    as (ds & Hds & Hdata & _).
  exists ds. split; [done|]. by rewrite Hdata.
Defined.

Lemma chart_labels_grouped_by_month_witness :
  (forall s, @month_year_label utc_en_US s <> "")
  /\ labels (@chartData utc_en_US sample_games) = ["Feb 2024"; "Mar 2024"; ""]
  /\ length (labels (@chartData utc_en_US sample_games))
     = length (@finishedGames sample_games).
Proof.
  split; [exact utc_en_US_label_not_empty|]. split; [reflexivity|].
  apply (@chart_labels_grouped_by_month utc_en_US sample_games
           utc_en_US_label_not_empty).
Defined.

Lemma presentation_leaves_games_unchanged_witness :
  let s := {| Store.arrays := {[ 0%nat := sample_games ]};
              Store.games_value := 0%nat |} in
  Store.arrays s !! Store.games_value s = Some sample_games
  /\ Store.arrays (@Store.chartData utc_en_US s).2 !! 0%nat = Some sample_games.
Proof.
  split; [reflexivity|].
  pose proof (presentation_leaves_games_unchanged
                {| Store.arrays := {[ 0%nat := sample_games ]};
                   Store.games_value := 0%nat |} sample_games eq_refl) as H.
  simpl in H. destruct H as (_ & _ & _ & _ & _ & _ & _ & Hc & _).
  destruct (Hc utc_en_US) as (_ & _ & Hs & _). exact Hs.
Defined.

Lemma statistics_are_ratio_and_mean_witness :
  Z.of_nat (length sample_games) < 2 ^ 32
  /\ winPercentage sample_games = Some "50.00%"
  /\ averageTurns sample_games = Some "3.00"
  /\ averageTurns (winningGames sample_games) = averageTurns sample_games.
Proof.
  assert (H : Z.of_nat (length sample_games) < 2 ^ 32) by (by vm_compute).
  split; [exact H|]. split; [by vm_compute|]. split; [by vm_compute|].
  apply (statistics_are_ratio_and_mean sample_games H).
Defined.

(** * Further properties of the component *)

(** ** The page *)

Lemma syncData_settle_not_empty r st : syncStatus (syncData_settle r st).1 <> "".
Proof.
  destruct r as [data|m]; [|discriminate].
  destruct (syncData_settle_cases data st)
    as [(_ & ->)|[(_ & _ & ->)|[(_ & _ & _ & ->)|(_ & _ & _ & ->)]]];
    simpl; discriminate.
Qed.

Lemma sync_message_visible_iff st :
  sync_message_visible st = true
  <-> syncStatus st <> "" /\ syncStatus st <> "Syncing...".
Proof.
  unfold sync_message_visible, truthy.
  rewrite andb_true_iff, !negb_true_iff, !bool_decide_eq_false. done.
Qed.

(** X1: however a pending sync request settles - fulfilled with any body,
    or rejected - the button is enabled again and a message is shown. *)
Theorem settled_sync_enables_button (p : Page) (n : nat) (r : settled) :
  syncs_in_flight p = S n ->
  exists p',
    step (SyncSettles r) p = Some p'
    /\ (syncs_in_flight p' = n)%nat
    /\ sync_button_disabled (app p') = false
    /\ sync_button_label (app p') = "Sync Archive Data"
    /\ sync_message_visible (app p') = true.
Proof.
  intros Hn. unfold step. rewrite Hn.
  pose proof (syncData_settle_not_syncing r (app p)) as Hs.
  pose proof (syncData_settle_not_empty r (app p)) as He.
  destruct (syncData_settle r (app p)) as [st refetch]. simpl in Hs, He.
  eexists. split; [reflexivity|]. simpl.
  unfold sync_button_disabled, sync_button_label.
  rewrite !bool_decide_false by done. split_and!; try done.
  by apply sync_message_visible_iff.
Qed.

Lemma settled_sync_enables_button_witness :
  exists p p',
    run [ClickSync] mounted_page = Some p
    /\ syncs_in_flight p = 1%nat
    /\ step (SyncSettles (Rejected "Network Error")) p = Some p'
    /\ sync_button_disabled (app p') = false.
Proof.
  eexists. 
  destruct (settled_sync_enables_button
              {| app := syncData_start (fetchGames_start initial_state);
                 syncs_in_flight := 1; fetches_in_flight := 1 |}
              0 (Rejected "Network Error") eq_refl) as (p' & Hstep & _ & Hd & _).
  exists p'. split; [reflexivity|]. split; [reflexivity|]. by split.
Defined.

Lemma loading_settles_step e p p' :
  (fetches_in_flight p = 0%nat -> loading (app p) = false) ->
  step e p = Some p' ->
  fetches_in_flight p' = 0%nat -> loading (app p') = false.
Proof.
  intros Hinv Hstep. destruct e as [|r|r]; simpl in Hstep.
  - destruct (sync_button_disabled (app p)); simplify_eq; [done|]. simpl. done.
  - destruct (syncs_in_flight p) as [|n]; [done|].
    destruct r as [data|m].
    + destruct (syncData_settle_cases data (app p))
        as [(_ & E)|[(_ & _ & E)|[(_ & _ & _ & E)|(_ & _ & _ & E)]]];
        rewrite E in Hstep; simplify_eq; simpl; done.
    + simpl in Hstep. simplify_eq. simpl. done.
  - destruct (fetches_in_flight p) as [|n]; [done|]. simplify_eq.
    intros _. by destruct r.
Qed.

(** X2: once no request for the games is pending, the "Loading game
    data..." message is gone, however the requests settled; but it can be
    gone while a request is still pending, when two of them overlap. *)
Theorem loading_message_ends_with_requests :
  (forall trace p,
     run trace mounted_page = Some p ->
     fetches_in_flight p = 0%nat -> loading (app p) = false)
  /\ (exists trace p,
        run trace mounted_page = Some p
        /\ fetches_in_flight p = 1%nat /\ loading (app p) = false).
Proof.
  split.
  - intros trace.
    assert (H : forall p0 p,
              (fetches_in_flight p0 = 0%nat -> loading (app p0) = false) ->
              run trace p0 = Some p ->
              fetches_in_flight p = 0%nat -> loading (app p) = false).
    { induction trace as [|e rest IH]; intros p0 p Hinv Hrun; simpl in Hrun.
      - by simplify_eq.
      - destruct (step e p0) as [q|] eqn:Hstep; [|done].
        eapply IH; [|exact Hrun]. by eapply loading_settles_step. }
    intros p. apply H. done.
  - exists [ClickSync;
            SyncSettles (Resolved {[ "status" := VString "done";
                                     "added" := VNumber 3 ]});
            FetchSettles (Rejected "timeout")].
    eexists. split; [by vm_compute|]. by split.
Qed.

(** X3: the games, the user id and the last-sync time on the page change
    only when a request for the games is fulfilled: not on a click, not
    when a sync settles, not when a request for the games fails. *)
Theorem only_a_fulfilled_fetch_changes_games (e : event) (p p' : Page) :
  step e p = Some p' ->
  (forall data, e <> FetchSettles (Resolved data)) ->
  games (app p') = games (app p)
  /\ userId (app p') = userId (app p)
  /\ lastSynced (app p') = lastSynced (app p).
Proof.
  intros Hstep Hne. destruct e as [|r|r]; simpl in Hstep.
  - by destruct (sync_button_disabled (app p)); simplify_eq.
  - destruct (syncs_in_flight p) as [|n]; [done|].
    destruct r as [data|m].
    + destruct (syncData_settle_cases data (app p))
        as [(_ & E)|[(_ & _ & E)|[(_ & _ & _ & E)|(_ & _ & _ & E)]]];
        rewrite E in Hstep; by simplify_eq.
    + simpl in Hstep. by simplify_eq.
  - destruct (fetches_in_flight p) as [|n]; [done|]. simplify_eq.
    destruct r as [data|m]; [by destruct (Hne data)|done].
Qed.

Lemma only_a_fulfilled_fetch_changes_games_witness :
  let p := {| app := fetchGames_settle
                       (Resolved {[ "games" := VGames sample_games ]})
                       initial_state;
              syncs_in_flight := 1; fetches_in_flight := 0 |} in
  exists p',
    step (SyncSettles (Rejected "Network Error")) p = Some p'
    /\ games (app p') = VGames sample_games.
Proof.
  intros p. eexists. split; [reflexivity|].
  refine (proj1 (only_a_fulfilled_fetch_changes_games
                   (SyncSettles (Rejected "Network Error")) p _ eq_refl _)).
  intros data. discriminate.
Defined.

Lemma status_after_run trace : forall p p',
  run trace p = Some p' ->
  (syncStatus (app p) <> "" -> syncStatus (app p') <> "")
  /\ (ClickSync ∉ trace -> syncs_in_flight p = 0%nat ->
      syncStatus (app p') = syncStatus (app p) /\ syncs_in_flight p' = 0%nat)
  /\ (ClickSync ∈ trace -> syncStatus (app p') <> "").
Proof.
  induction trace as [|e rest IH]; intros p p' Hrun; simpl in Hrun.
  - simplify_eq. split_and!; try done. intros H. by apply not_elem_of_nil in H.
  - destruct (step e p) as [q|] eqn:Hstep; [|done].
    destruct (IH _ _ Hrun) as (IH1 & IH2 & IH3).
    assert (Hq : syncStatus (app p) <> "" -> syncStatus (app q) <> "").
    { destruct e as [|r|r]; simpl in Hstep.
      - destruct (sync_button_disabled (app p)); simplify_eq; [done|].
        intros _. discriminate.
      - destruct (syncs_in_flight p) as [|n]; [done|].
        pose proof (syncData_settle_not_empty r (app p)) as He.
        destruct (syncData_settle r (app p)) as [st b]. by simplify_eq.
      - destruct (fetches_in_flight p) as [|n]; [done|]. simplify_eq.
        by destruct r. }
    split_and!.
    + auto.
    + intros Hnot H0. apply not_elem_of_cons in Hnot as [Hne Hnot].
      destruct e as [|r|r]; [done|..]; simpl in Hstep.
      * by rewrite H0 in Hstep.
      * destruct (fetches_in_flight p) as [|n]; [done|]. simplify_eq.
        destruct (IH2 Hnot) as [E1 E2]; [by destruct r|].
        split; [|done]. rewrite E1. by destruct r.
    + intros Hin. apply elem_of_cons in Hin as [<-|Hin]; [|by apply IH3].
      apply IH1. simpl in Hstep.
      destruct (sync_button_disabled (app p)) eqn:Hd; simplify_eq.
      * apply sync_button_disabled_iff in Hd. rewrite Hd. discriminate.
      * discriminate.
Qed.

(** X4: the sync status is empty exactly until the first click on the
    button; from then on the page always shows either the disabled
    "Syncing..." button or a message, never both and never neither. *)
Theorem message_area_after_first_click (trace : list event) (p : Page) :
  run trace mounted_page = Some p ->
  (syncStatus (app p) = "" <-> ClickSync ∉ trace)
  /\ (ClickSync ∈ trace ->
      sync_message_visible (app p) = negb (sync_button_disabled (app p)))
  /\ (ClickSync ∉ trace ->
      sync_message_visible (app p) = false
      /\ sync_button_disabled (app p) = false).
Proof.
  intros Hrun. destruct (status_after_run _ _ _ Hrun) as (_ & H2 & H3).
  assert (Hiff : syncStatus (app p) = "" <-> ClickSync ∉ trace).
  { split.
    - intros He Hin. by apply H3 in Hin.
    - intros Hnot. by destruct (H2 Hnot eq_refl) as [-> _]. }
  split; [done|]. split.
  - intros Hin. apply H3 in Hin.
    unfold sync_message_visible, sync_button_disabled, truthy.
    by rewrite (bool_decide_false _ Hin).
  - intros Hnot. apply Hiff in Hnot.
    unfold sync_message_visible, sync_button_disabled, truthy.
    by rewrite Hnot.
Qed.

Lemma message_area_after_first_click_witness :
  exists p,
    run [ClickSync; SyncSettles (Rejected "Network Error")] mounted_page = Some p
    /\ sync_message_visible (app p) = true
    /\ syncStatus (app p) = "Sync failed: Network Error".
Proof.
  eexists. split; [reflexivity|].
  destruct (message_area_after_first_click
              [ClickSync; SyncSettles (Rejected "Network Error")] _ eq_refl)
    as (_ & H & _).
  split; [|reflexivity]. rewrite H; [reflexivity|]. apply elem_of_cons. by left.
Defined.

(** ** The template *)

(** X5: after a fulfilled request for the games the "Loading" message is
    gone, and the [games] field of the body decides what is rendered: an
    empty array (or the empty string) gives the "No games found" message,
    a non-empty array the dashboard, and anything else breaks the
    rendering: a missing field or [null] at [games.length], a number or a
    non-empty string at [games.value.filter]. *)
Theorem view_after_fetch (data : gmap string value) (st : AppState) :
  let st' := fetchGames_settle (Resolved data) st in
  rendered_view st' <> LoadingMessage
  /\ (rendered_view st' = Dashboard
      <-> exists gs, prop data "games" = VGames gs /\ gs <> [])
  /\ (rendered_view st' = NoDataMessage
      <-> prop data "games" = VGames [] \/ prop data "games" = VString "")
  /\ (rendered_view st' = RenderError
      <-> prop data "games" = VUndefined \/ prop data "games" = VNull
          \/ (exists n, prop data "games" = VNumber n)
          \/ (exists s, prop data "games" = VString s /\ s <> ""))
  /\ (data !! "games" = None -> rendered_view st' = RenderError).
Proof.
  intros st'.
  assert (Hview : rendered_view st' =
            match prop data "games" with
            | VUndefined | VNull | VNumber _ => RenderError
            | VString s => if bool_decide (s = "") then NoDataMessage
                           else RenderError
            | VGames gs => if bool_decide (gs = []) then NoDataMessage
                           else Dashboard
            end).
  { unfold rendered_view, st'. simpl.
    destruct (prop data "games") as [| |n|s|gs]; simpl; try done.
    - destruct s; [done|]. unfold strict_eq.
      rewrite bool_decide_false; [done|]. intros [= E]; simpl in E; lia.
    - destruct gs; [done|]. unfold strict_eq.
      rewrite bool_decide_false; [done|]. intros [= E]; simpl in E; lia. }
  rewrite Hview. split_and!.
  - destruct (prop data "games"); try done; by case_bool_decide.
  - split.
    + destruct (prop data "games") as [| |n|s|gs]; try done;
        case_bool_decide; try done. intros _. by exists gs.
    + intros (gs & -> & Hne). by rewrite bool_decide_false.
  - split.
    + destruct (prop data "games") as [| |n|s|gs]; try done;
        case_bool_decide; try done; subst; auto.
    + by intros [-> | ->].
  - split.
    + destruct (prop data "games") as [| |n|s|gs];
        try case_bool_decide; try done; intros _; eauto 8.
    + intros [-> | [-> | [[n ->] | (s & -> & Hne)]]]; try done.
      by rewrite bool_decide_false.
  - intros Hnone. unfold prop. by rewrite Hnone.
Qed.

(** X6: whenever the dashboard is rendered for an array of games, the
    array is not empty, so the "Win Percentage" card shows a quotient
    that was computed, with two fraction digits. *)
Theorem dashboard_percentage_is_computed (st : AppState) (gs : list Game) :
  rendered_view st = Dashboard ->
  games st = VGames gs ->
  Z.of_nat (length gs) < 2 ^ 32 ->
  gs <> []
  /\ loading st = false
  /\ exists s, winPercentage gs = Some (s ++ "%") /\ decimal_with_2_digits s.
Proof.
  unfold rendered_view. intros Hview Hgames Hlen.
  destruct (loading st); [done|]. rewrite Hgames in Hview. simpl in Hview.
  assert (Hne : gs <> []).
  { intros ->. done. }
  split; [done|]. split; [done|].
  destruct (winPercentage_value gs Hne) as (r & _ & Hr & _ & ->).
  { assert (2 ^ 32 < 2 ^ 53) by (apply Z.pow_lt_mono_r; lia). lia. }
  eexists. split; [done|]. by apply fixed2_decimal.
Qed.

Lemma dashboard_percentage_is_computed_witness :
  let st := fetchGames_settle (Resolved {[ "games" := VGames sample_games ]})
              initial_state in
  rendered_view st = Dashboard
  /\ games st = VGames sample_games
  /\ winPercentage sample_games = Some "50.00%"
  /\ sample_games <> [].
Proof.
  intros st.
  assert (Hv : rendered_view st = Dashboard) by reflexivity.
  assert (Hg : games st = VGames sample_games) by reflexivity.
  assert (Hl : Z.of_nat (length sample_games) < 2 ^ 32) by (by vm_compute).
  split; [exact Hv|]. split; [exact Hg|]. split; [by vm_compute|].
  apply (dashboard_percentage_is_computed st sample_games Hv Hg Hl).
Defined.

(** X7: "Last contentful sync" reads ['Never'] until a response carries a
    non-empty [last_synced_at]: at the start, and after a response where
    the field is missing, [null] or the empty string; a value that does not
    parse as a date is shown as it is. *)
Theorem last_sync_never `{UtcEnv} (data : gmap string value) (st : AppState) :
  let st' := fetchGames_settle (Resolved data) st in
  last_sync_shown initial_state = VString "Never"
  /\ (data !! "last_synced_at" = None -> last_sync_shown st' = VString "Never")
  /\ (data !! "last_synced_at" = Some VNull -> last_sync_shown st' = VString "Never")
  /\ (data !! "last_synced_at" = Some (VString "") ->
      last_sync_shown st' = VString "Never")
  /\ (forall s, data !! "last_synced_at" = Some (VString s) -> s <> "" ->
        last_sync_shown st'
        = if date_parse_is_NaN (VString s) then VString s
          else VString (toUTCString (VString s)))
  /\ (forall m, last_sync_shown (fetchGames_settle (Rejected m) st)
                = last_sync_shown st).
Proof.
  simpl. unfold last_sync_shown, prop. simpl. split_and!; try done.
  - by intros ->.
  - by intros ->.
  - by intros ->.
  - intros s -> Hs. simpl. by rewrite bool_decide_false.
Qed.

(** ** The chart and its options *)

Section ChartOptions.
Context `{DateEnv}.

(** X8: the parallel arrays of the dataset are aligned: the point, the
    tooltip title and the tooltip lines at an index all come from the same
    game.  The tooltip reads "FAIL (6/6 attempts)" for a lost game and the
    number of rows for a won one. *)
Theorem tooltip_describes_the_point (gs : list Game) (i : nat) (g : Game) :
  finishedGames gs !! i = Some g ->
  exists ds,
    datasets (chartData gs) = [ds]
    /\ data ds !! i = Some (data_point g)
    /\ tooltip_title ds i = VString (print_date g)
    /\ (status (game_data g) = FAIL ->
        tooltip_label ds i = ["Guesses: FAIL (6/6 attempts)"; solution g])
    /\ (status (game_data g) = WIN -> win_row_typed g ->
        tooltip_label ds i
        = ["Guesses: " ++ pretty (currentRowIndex (game_data g)); solution g]).
Proof.
  intros Hg. eexists. split; [reflexivity|].
  unfold tooltip_title, tooltip_label. simpl.
  rewrite !list_lookup_fmap, Hg. simpl. split_and!; try done.
  - intros Hs. unfold data_point. rewrite Hs. done.
  - intros Hs Hty. specialize (Hty Hs). unfold row_index_typed in Hty.
    unfold data_point. rewrite Hs. simpl.
    rewrite (bool_decide_false (currentRowIndex (game_data g) = 7)) by lia.
    done.
Qed.

(** X9: the chart lists the finished games in the reverse of the order
    of [games]: the table is newest first, the chart oldest first. *)
Theorem chart_reverses_the_table (gs : list Game) :
  exists ds,
    datasets (chartData gs) = [ds]
    /\ printDates ds = reverse (map print_date (filter is_finished gs))
    /\ solutions ds = reverse (map solution (filter is_finished gs))
    /\ data ds = reverse (map data_point (filter is_finished gs))
    /\ finishedGames (reverse gs) = filter is_finished gs.
Proof.
  eexists. split; [reflexivity|]. simpl. unfold finishedGames.
  rewrite filter_reverse. rewrite !fmap_reverse, reverse_involutive. done.
Qed.

(** X10: a grid line and a tick on the x axis are drawn exactly where the
    labels start a month: at the first point, and at a point whose month is
    not the month of the point before. *)
Theorem grid_lines_mark_month_starts (gs : list Game)
    (getLabelForValue : nat -> value) :
  (forall s, month_year_label s <> "") ->
  let ls := labels (chartData gs) in
  (forall i l, ls !! i = Some l -> getLabelForValue i = VString l) ->
  (forall g, finishedGames gs !! 0%nat = Some g ->
     grid_color ls 0 = "rgba(0, 0, 0, 0.1)"
     /\ x_tick_callback getLabelForValue 0
        = VString (month_year_label (print_date g)))
  /\ (forall i p g,
        finishedGames gs !! i = Some p -> finishedGames gs !! S i = Some g ->
        if month_neq (getMonth (print_date g)) (getMonth (print_date p))
        then grid_color ls (S i) = "rgba(0, 0, 0, 0.1)"
             /\ x_tick_callback getLabelForValue (S i)
                = VString (month_year_label (print_date g))
        else grid_color ls (S i) = "rgba(0, 0, 0, 0.0)"
             /\ x_tick_callback getLabelForValue (S i) = VNull).
Proof.
  intros Hne ls Hglv.
  assert (Hshown : forall i l, ls !! i = Some l -> l <> "" ->
            grid_color ls i = "rgba(0, 0, 0, 0.1)"
            /\ x_tick_callback getLabelForValue i = VString l).
  { intros i l Hl Hl0. unfold grid_color, x_tick_callback.
    rewrite (Hglv i l Hl), Hl. simpl. unfold strict_eq.
    rewrite bool_decide_false by congruence. done. }
  assert (Hhidden : forall i, ls !! i = Some "" ->
            grid_color ls i = "rgba(0, 0, 0, 0.0)"
            /\ x_tick_callback getLabelForValue i = VNull).
  { intros i Hl. unfold grid_color, x_tick_callback.
    rewrite (Hglv i "" Hl), Hl. done. }
  split.
  - intros g Hg. apply Hshown; [|apply Hne].
    subst ls. simpl. destruct (finishedGames gs) as [|x rest]; [done|].
    injection Hg as <-. rewrite month_labels_cons.
    by destruct (getMonth (print_date x)).
  - intros i p g Hp Hg.
    pose proof (month_labels_lookup_succ (finishedGames gs) None i p g Hp Hg) as Hl.
    destruct (month_neq _ _).
    + apply Hshown; [exact Hl|apply Hne].
    + by apply Hhidden.
Qed.
End ChartOptions.

Lemma tooltip_describes_the_point_witness :
  let g := sample_game "2024-03-31" 1016 6 FAIL in
  @finishedGames sample_games !! 2%nat = Some g
  /\ exists ds, datasets (@chartData utc_en_US sample_games) = [ds]
                /\ tooltip_label ds 2 = ["Guesses: FAIL (6/6 attempts)"; "crane"].
Proof.
  intros g. split; [reflexivity|].
  destruct (@tooltip_describes_the_point utc_en_US sample_games 2 g eq_refl)
    as (ds & Hds & _ & _ & Hfail & _).
  exists ds. split; [exact Hds|]. by apply Hfail.
Defined.

Lemma grid_lines_mark_month_starts_witness :
  let ls := labels (@chartData utc_en_US sample_games) in
  let glv := fun i => from_option VString VUndefined (ls !! i) in
  (forall s, @month_year_label utc_en_US s <> "")
  /\ (forall i l, ls !! i = Some l -> glv i = VString l)
  /\ grid_color ls 0 = "rgba(0, 0, 0, 0.1)"
  /\ grid_color ls 2 = "rgba(0, 0, 0, 0.0)".
Proof.
  intros ls glv.
  assert (Hglv : forall i l, ls !! i = Some l -> glv i = VString l).
  { intros i l Hl. unfold glv. by rewrite Hl. }
  split; [exact utc_en_US_label_not_empty|]. split; [exact Hglv|].
  destruct (@grid_lines_mark_month_starts utc_en_US sample_games glv
              utc_en_US_label_not_empty Hglv) as [H0 _].
  split; [|reflexivity].
  by destruct (H0 (sample_game "2024-02-29" 985 2 WIN) eq_refl).
Defined.

(** X11: [getMonth()] has no year: when two finished games that follow
    each other on the chart fall in the same month of different years, the
    second one gets no label, although its month-and-year text differs
    (UTC, en-US). *)
Theorem same_month_of_another_year_is_unlabelled (gs : list Game) (i : nat)
    (p g : Game) (y1 y2 m d1 d2 : nat) :
  @finishedGames gs !! i = Some p ->
  @finishedGames gs !! S i = Some g ->
  parse_date (print_date p) = Some (y1, m, d1) ->
  parse_date (print_date g) = Some (y2, m, d2) ->
  labels (@chartData utc_en_US gs) !! S i = Some ""
  /\ (y1 <> y2 ->
      @month_year_label utc_en_US (print_date g)
      <> @month_year_label utc_en_US (print_date p)).
Proof.
  intros Hp Hg Pp Pg. split.
  - simpl labels.
    rewrite (@month_labels_lookup_succ utc_en_US _ None i p g Hp Hg).
    simpl. rewrite Pp, Pg. simpl. by rewrite Nat.eqb_refl.
  - intros Hy. simpl. rewrite Pp, Pg. intros Heq.
    apply string_app_cancel in Heq. injection Heq as Heq.
    simpl in Heq. apply pretty_nat_inj in Heq. congruence.
Qed.

Lemma same_month_of_another_year_is_unlabelled_witness :
  let p := sample_game "2023-03-15" 634 4 WIN in
  let g := sample_game "2024-03-10" 1000 3 WIN in
  parse_date (print_date p) = Some (2023, 3, 15)%nat
  /\ parse_date (print_date g) = Some (2024, 3, 10)%nat
  /\ labels (@chartData utc_en_US [g; p]) !! 1%nat = Some "".
Proof.
  intros p g. split; [reflexivity|]. split; [reflexivity|].
  exact (proj1 (same_month_of_another_year_is_unlabelled [g; p] 0 p g
                  2023 2024 3 15 10 eq_refl eq_refl eq_refl eq_refl)).
Defined.

(** ** More on the summary statistics *)

Lemma count_status_all st gs :
  Forall (fun g => status (game_data g) = st) gs ->
  count_status st gs = length gs.
Proof.
  induction 1 as [|g gs Hg _ IH]; [done|]. simpl.
  by rewrite bool_decide_true, IH.
Qed.

Lemma count_status_none st gs :
  Forall (fun g => status (game_data g) <> st) gs -> count_status st gs = O.
Proof.
  induction 1 as [|g gs Hg _ IH]; [done|]. simpl.
  by rewrite bool_decide_false.
Qed.

Lemma bound_32_53 n : n < 2 ^ 32 -> n < 2 ^ 53.
Proof.
  intros Hn. assert (2 ^ 32 < 2 ^ 53) by (apply Z.pow_lt_mono_r; lia). lia.
Qed.

Lemma bound_32_50 n : n < 2 ^ 32 -> n < 2 ^ 50.
Proof.
  intros Hn. assert (2 ^ 32 < 2 ^ 50) by (apply Z.pow_lt_mono_r; lia). lia.
Qed.

(** X12: when every game is a win the card reads ['100.00%'], and when no
    game is a win it reads ['0.00%'] - the same text as for an empty
    list, this time computed. *)
Theorem winPercentage_extremes (gs : list Game) :
  gs <> [] -> Z.of_nat (length gs) < 2 ^ 32 ->
  (Forall (fun g => status (game_data g) = WIN) gs ->
   winPercentage gs = Some "100.00%")
  /\ (Forall (fun g => status (game_data g) <> WIN) gs ->
      winPercentage gs = Some "0.00%").
Proof.
  intros Hne Hlen. apply bound_32_53 in Hlen.
  assert (Hpos : (0 < length gs)%nat) by (destruct gs; [done|simpl; lia]).
  assert (HnQ : (0 < inject_Z (Z.of_nat (length gs)))%Q).
  { change 0%Q with (inject_Z 0). rewrite <- Zlt_Qlt. lia. }
  unfold winPercentage, totalGames. rewrite bool_decide_false by lia.
  rewrite totalWins_count. split; intros Hall.
  - rewrite (count_status_all _ _ Hall), !length_number_exact by lia.
    rewrite of_Z_exact by (simpl; lia). unfold number_div.
    rewrite Qeq_bool_false by lra.
    rewrite (round64_integer _ 1); [|field; lra|simpl; lia].
    unfold number_mul.
    rewrite (round64_integer _ 100); [|reflexivity|simpl; lia].
    by vm_compute.
  - rewrite (count_status_none _ _ Hall), !length_number_exact by (simpl; lia).
    rewrite of_Z_exact by (simpl; lia). unfold number_div.
    rewrite Qeq_bool_false by lra.
    rewrite (round64_integer _ 0); [|simpl; field; lra|simpl; lia].
    unfold number_mul.
    rewrite (round64_integer _ 0); [|reflexivity|simpl; lia].
    by vm_compute.
Qed.

Lemma winPercentage_extremes_witness :
  let gs := [sample_game "2024-03-30" 1015 4 WIN;
             sample_game "2024-02-29" 985 2 WIN] in
  gs <> [] /\ Z.of_nat (length gs) < 2 ^ 32
  /\ winPercentage gs = Some "100.00%".
Proof.
  intros gs.
  assert (H1 : gs <> []) by done.
  assert (H2 : Z.of_nat (length gs) < 2 ^ 32) by (by vm_compute).
  split; [exact H1|]. split; [exact H2|].
  apply (winPercentage_extremes gs H1 H2). by repeat constructor.
Defined.

Lemma fixed2_hundredths q : fixed2 q = hundredths (Qfloor (q * inject_Z 100 + (1 # 2))).
Proof. done. Qed.

Lemma Qfloor_between (x : Q) (a b : Z) :
  (inject_Z a <= x)%Q -> (x < inject_Z (b + 1))%Q -> a <= Qfloor x <= b.
Proof.
  intros Ha Hb. split.
  - rewrite <- (Qfloor_Z a). by apply Qfloor_resp_le.
  - pose proof (Qfloor_le x) as Hf.
    assert (inject_Z (Qfloor x) < inject_Z (b + 1))%Q as Hlt by lra.
    rewrite <- Zlt_Qlt in Hlt. lia.
Qed.

Lemma pow2_m45_small : (0 < pow2 (-45) <= 1 # 1024)%Q.
Proof.
  split; [apply pow2_pos|].
  assert (pow2 (-45) <= pow2 (-10))%Q by (apply pow2_le; lia).
  assert (pow2 (-10) == 1 # 1024)%Q by reflexivity. lra.
Qed.

Lemma pow2_m50_small : (0 < pow2 (-50) <= 1 # 1024)%Q.
Proof.
  split; [apply pow2_pos|].
  assert (pow2 (-50) <= pow2 (-10))%Q by (apply pow2_le; lia).
  assert (pow2 (-10) == 1 # 1024)%Q by reflexivity. lra.
Qed.

(** X13: the percentage shown is between 0.00 and 100.00, and the average
    shown is between 1.00 and 6.00 (in hundredths: between 100 and 600),
    whatever the rounding of the division. *)
Theorem statistics_stay_in_range (gs : list Game) :
  Z.of_nat (length gs) < 2 ^ 32 ->
  (gs <> [] ->
   exists n, 0 <= n <= 10000 /\ winPercentage gs = Some (hundredths n ++ "%"))
  /\ (totalWins gs <> O -> Forall win_row_typed gs ->
      exists n, 100 <= n <= 600 /\ averageTurns gs = Some (hundredths n)).
Proof.
  intros Hlen. split.
  - intros Hne.
    destruct (winPercentage_value gs Hne (bound_32_53 _ Hlen))
      as (r & _ & Hr0 & Herr & ->).
    rewrite fixed2_hundredths. eexists. split; [|reflexivity].
    pose proof (count_status_le WIN gs) as Hle.
    assert (Hpos : (0 < length gs)%nat) by (destruct gs; [done|simpl; lia]).
    set (w := inject_Z (Z.of_nat (count_status WIN gs))) in *.
    set (n := inject_Z (Z.of_nat (length gs))) in *.
    assert (HnQ : (0 < n)%Q).
    { unfold n. change 0%Q with (inject_Z 0). rewrite <- Zlt_Qlt. lia. }
    assert (HwQ : (0 <= w <= n)%Q).
    { unfold w, n. change 0%Q with (inject_Z 0). rewrite <- !Zle_Qle. lia. }
    assert (Hq : (inject_Z 100 * w / n <= 100)%Q).
    { apply Qle_shift_div_r; [done|]. change (inject_Z 100) with 100%Q. lra. }
    apply Qabs_Qle_condition in Herr. pose proof pow2_m45_small.
    apply Qfloor_between; change (inject_Z 100) with 100%Q.
    + change (inject_Z 0) with 0%Q. lra.
    + change (inject_Z (10000 + 1)) with 10001%Q. lra.
  - intros Hw Hty. rewrite totalWins_count in Hw.
    destruct (averageTurns_value gs Hw Hty (bound_32_50 _ Hlen))
      as (r & _ & Hr0 & Herr & ->).
    rewrite fixed2_hundredths. eexists. split; [|reflexivity].
    pose proof (sum_rows_of_wins_bounds gs Hty) as Hsum.
    set (s := inject_Z (sum_rows_of_wins gs)) in *.
    set (w := inject_Z (Z.of_nat (count_status WIN gs))) in *.
    assert (HwQ : (0 < w)%Q).
    { unfold w. change 0%Q with (inject_Z 0). rewrite <- Zlt_Qlt. lia. }
    assert (Hs : (w <= s <= 6 * w)%Q).
    { unfold s, w. change 6%Q with (inject_Z 6).
      rewrite <- inject_Z_mult, <- !Zle_Qle. lia. }
    assert (Hq : (1 <= s / w <= 6)%Q).
    { split; [apply Qle_shift_div_l|apply Qle_shift_div_r]; lra. }
    apply Qabs_Qle_condition in Herr. pose proof pow2_m50_small.
    apply Qfloor_between; change (inject_Z 100) with 100%Q.
    + lra.
    + change (inject_Z (600 + 1)) with 601%Q. lra.
Qed.

Lemma statistics_stay_in_range_witness :
  Z.of_nat (length sample_games) < 2 ^ 32
  /\ sample_games <> []
  /\ exists n, 0 <= n <= 10000
               /\ winPercentage sample_games = Some (hundredths n ++ "%").
Proof.
  assert (H : Z.of_nat (length sample_games) < 2 ^ 32) by (by vm_compute).
  split; [exact H|]. split; [done|].
  by apply (statistics_stay_in_range sample_games H).
Defined.

Lemma sum_rows_of_wins_constant k gs :
  Forall (fun g => status (game_data g) = WIN -> currentRowIndex (game_data g) = k) gs ->
  sum_rows_of_wins gs = k * Z.of_nat (count_status WIN gs).
Proof.
  induction 1 as [|g gs Hg _ IH]; simpl; [lia|].
  case_bool_decide; [rewrite (Hg ltac:(done)), IH|]; lia.
Qed.

(** X14: when every win took the same number of rows [k], the average
    shown is exactly [k.00]. *)
Theorem averageTurns_of_equal_rows (gs : list Game) (k : Z) :
  Z.of_nat (length gs) < 2 ^ 32 -> 1 <= k <= 6 -> totalWins gs <> O ->
  Forall (fun g => status (game_data g) = WIN ->
                   currentRowIndex (game_data g) = k) gs ->
  averageTurns gs = Some (pretty k ++ ".00").
Proof.
  intros Hlen Hk Hw Hrows. rewrite totalWins_count in Hw.
  assert (Hty : Forall win_row_typed gs).
  { eapply Forall_impl; [exact Hrows|]. intros g Hg Hs.
    unfold row_index_typed. rewrite (Hg Hs). lia. }
  pose proof (count_status_le WIN gs) as Hle.
  apply bound_32_50 in Hlen. assert (2 ^ 50 < 2 ^ 53) by (apply Z.pow_lt_mono_r; lia).
  unfold averageTurns. rewrite totalWins_count, bool_decide_false by done.
  rewrite totalTurns_exact, length_number_exact by (done || lia).
  rewrite (sum_rows_of_wins_constant k gs Hrows).
  set (w := Z.of_nat (count_status WIN gs)) in *.
  assert (HwQ : (0 < inject_Z w)%Q).
  { change 0%Q with (inject_Z 0). rewrite <- Zlt_Qlt. lia. }
  unfold number_div. rewrite Qeq_bool_false by lra.
  rewrite (round64_integer _ k);
    [|rewrite inject_Z_mult; field; lra|lia].
  assert (k = 1 \/ k = 2 \/ k = 3 \/ k = 4 \/ k = 5 \/ k = 6)
    as [->|[->|[->|[->|[->| ->]]]]] by lia; by vm_compute.
Qed.

Lemma averageTurns_of_equal_rows_witness :
  let gs := [sample_game "2024-03-30" 1015 4 WIN;
             sample_game "2024-03-29" 1014 6 FAIL;
             sample_game "2024-02-29" 985 4 WIN] in
  Z.of_nat (length gs) < 2 ^ 32 /\ averageTurns gs = Some "4.00".
Proof.
  intros gs.
  assert (H : Z.of_nat (length gs) < 2 ^ 32) by (by vm_compute).
  split; [exact H|].
  apply (averageTurns_of_equal_rows gs 4 H); [lia|done|].
  repeat constructor; simpl; done.
Defined.

Lemma count_status_perm st gs gs' :
  gs ≡ₚ gs' -> count_status st gs = count_status st gs'.
Proof.
  induction 1 as [|g gs gs' _ IH|g1 g2 gs|gs1 gs2 gs3 _ IH1 _ IH2]; simpl.
  - done.
  - by rewrite IH.
  - by repeat case_bool_decide.
  - congruence.
Qed.

Lemma sum_rows_of_wins_perm gs gs' :
  gs ≡ₚ gs' -> sum_rows_of_wins gs = sum_rows_of_wins gs'.
Proof.
  induction 1 as [|g gs gs' _ IH|g1 g2 gs|gs1 gs2 gs3 _ IH1 _ IH2]; simpl.
  - done.
  - by rewrite IH.
  - repeat case_bool_decide; lia.
  - congruence.
Qed.

(** X15: the statistics do not depend on the order of the games: any
    rearrangement of the list (the reversal the chart makes, for one)
    gives the same total, the same percentage and the same average. *)
Theorem statistics_ignore_the_order (gs gs' : list Game) :
  gs ≡ₚ gs' -> Z.of_nat (length gs) < 2 ^ 32 -> Forall win_row_typed gs ->
  totalGames gs' = totalGames gs
  /\ totalWins gs' = totalWins gs
  /\ winPercentage gs' = winPercentage gs
  /\ averageTurns gs' = averageTurns gs.
Proof.
  intros Hperm Hlen Hty.
  assert (Hl : length gs' = length gs) by (by rewrite Hperm).
  assert (Hw : totalWins gs' = totalWins gs).
  { rewrite !totalWins_count. symmetry. by apply count_status_perm. }
  assert (Hty' : Forall win_row_typed gs') by (by rewrite <- Hperm).
  split_and!; try done.
  - unfold winPercentage, totalGames. by rewrite Hl, Hw.
  - unfold averageTurns. rewrite Hw. case_bool_decide; [done|].
    rewrite !totalTurns_exact; try done.
    + by rewrite (sum_rows_of_wins_perm _ _ Hperm).
    + by apply bound_32_50.
    + rewrite Hl. by apply bound_32_50.
Qed.

Lemma statistics_ignore_the_order_witness :
  reverse sample_games ≡ₚ sample_games
  /\ Z.of_nat (length (reverse sample_games)) < 2 ^ 32
  /\ Forall win_row_typed (reverse sample_games)
  /\ averageTurns sample_games = averageTurns (reverse sample_games).
Proof.
  assert (H1 : reverse sample_games ≡ₚ sample_games) by apply reverse_Permutation.
  assert (H2 : Z.of_nat (length (reverse sample_games)) < 2 ^ 32) by (by vm_compute).
  assert (H3 : Forall win_row_typed (reverse sample_games)).
  { rewrite H1. apply sample_games_typed. }
  split; [exact H1|]. split; [exact H2|]. split; [exact H3|].
  apply (statistics_ignore_the_order _ _ H1 H2 H3).
Defined.

(** ** More on the export, the arrays and the table *)

Lemma no_control_chars_app s t :
  no_control_chars (s ++ t) = no_control_chars s && no_control_chars t.
Proof.
  induction s as [|c s IH]; [done|].
  change (no_control_chars (String c s ++ t))
    with ((32 <=? nat_of_ascii c)%nat && no_control_chars (s ++ t)).
  rewrite IH. simpl. by rewrite andb_assoc.
Qed.

Lemma escape_has_no_control_chars_true : escape_has_no_control_chars = true.
Proof. by vm_compute. Qed.

(** X16: a quoted string holds no control character, whatever the field
    contains: a line break inside a solution or a date cannot break the
    line layout of the exported file. *)
Theorem quoted_strings_hold_no_control_chars (s : string) :
  no_control_chars (quote s) = true
  /\ no_control_chars (serialize "  " "" (JString s)) = true.
Proof.
  assert (H : forall t, no_control_chars (quote t) = true).
  { intros t. unfold quote.
    change (String double_quote (escape t) ++ String double_quote "")
      with (String double_quote (escape t ++ String double_quote "")).
    simpl. rewrite no_control_chars_app. simpl. rewrite andb_true_r.
    induction t as [|c t IH]; [done|]. simpl.
    rewrite no_control_chars_app, IH, andb_true_r.
    pose proof escape_has_no_control_chars_true as Hall.
    unfold escape_has_no_control_chars in Hall.
    rewrite forallb_forall in Hall. apply Hall, in_all_ascii. }
  split; apply H.
Qed.

(** X17: [filter] gives a new array even when it keeps every element:
    the array of the winning games is not [games.value], and reversing it
    in place leaves [games.value] as it was. *)
Theorem winningGames_is_a_new_array (s : Store.store) (gs : list Game) :
  Store.arrays s !! Store.games_value s = Some gs ->
  exists w s',
    Store.winningGames s = (w, s')
    /\ w <> Store.games_value s
    /\ (w ∉ dom (Store.arrays s))
    /\ Store.arrays s' !! w = Some (winningGames gs)
    /\ Store.arrays (Store.array_reverse w s').2 !! Store.games_value s = Some gs
    /\ Store.arrays (Store.array_reverse w s').2 !! w
       = Some (reverse (winningGames gs)).
Proof.
  intros Hgs. unfold Store.winningGames.
  rewrite (bind_run _ _ _ _ _ (read_games_run s)).
  unfold Store.array_filter.
  rewrite (bind_run _ _ _ _ _ (elements_run _ _ _ Hgs)).
  eexists _, _. split; [reflexivity|].
  pose proof (is_fresh (dom (Store.arrays s))) as Hfresh.
  set (w := fresh (dom (Store.arrays s))) in *.
  assert (Hne : w <> Store.games_value s).
  { intros Heq. apply Hfresh. rewrite Heq. apply elem_of_dom. by eexists. }
  split_and!; try done; simpl.
  - apply lookup_insert_eq.
  - by rewrite lookup_alter_ne, lookup_insert_ne.
  - by rewrite lookup_alter_eq, lookup_insert_eq.
Qed.

Lemma winningGames_is_a_new_array_witness :
  let wins := [sample_game "2024-03-30" 1015 4 WIN] in
  let s := {| Store.arrays := {[ 0%nat := wins ]}; Store.games_value := 0%nat |} in
  Store.arrays s !! Store.games_value s = Some wins
  /\ winningGames wins = wins
  /\ (Store.winningGames s).1 <> 0%nat.
Proof.
  intros wins s. split; [reflexivity|]. split; [reflexivity|].
  destruct (winningGames_is_a_new_array s wins eq_refl)
    as (w & s' & E & Hne & _).
  rewrite E. exact Hne.
Defined.

Lemma pretty_Z_not_empty (z : Z) : pretty z <> "".
Proof.
  destruct z as [|p|p]; [done| |done].
  by apply (pretty_Z_digits (Z.pos p)).
Qed.

Lemma pretty_slash_not_letter (z : Z) (c : ascii) (t : string) :
  is_number_char c = false -> pretty z ++ "/6" <> String c t.
Proof.
  intros Hc Heq.
  pose proof (pretty_Z_number_chars z) as Hn.
  destruct (pretty z) as [|x u] eqn:E; [by apply (pretty_Z_not_empty z)|].
  simpl in Heq, Hn. injection Heq as -> _.
  apply andb_prop in Hn as [Hn _]. congruence.
Qed.

(** X18: the "Turns" cell tells the outcomes apart: two games show the
    same cell only if they have the same hard-mode mark and the same
    status, and, when they are wins, the same number of rows. *)
Theorem turns_cell_tells_outcomes_apart (g g' : Game) :
  turns_cell g = turns_cell g' ->
  hardMode (game_data g) = hardMode (game_data g')
  /\ status (game_data g) = status (game_data g')
  /\ (status (game_data g) = WIN ->
      currentRowIndex (game_data g) = currentRowIndex (game_data g')).
Proof.
  unfold turns_cell, getTurns.
  destruct (status (game_data g)), (status (game_data g')),
    (hardMode (game_data g)), (hardMode (game_data g'));
    simpl; intros Heq; try discriminate;
    try (injection Heq as Heq;
         first [ by apply pretty_slash_not_letter in Heq
               | by (symmetry in Heq; apply pretty_slash_not_letter in Heq) ]);
    try done.
  all: injection Heq as Heq; split_and!; try done; intros _.
  all: apply number_split in Heq as [-> _]; done.
Qed.

Lemma turns_cell_tells_outcomes_apart_witness :
  let g := sample_game "2024-03-30" 1015 4 WIN in
  turns_cell g = ["4/6"] /\ turns_cell g = turns_cell (with_row 4 g)
  /\ currentRowIndex (game_data g) = currentRowIndex (game_data (with_row 4 g)).
Proof.
  intros g. split; [reflexivity|].
  assert (H : turns_cell g = turns_cell (with_row 4 g)) by reflexivity.
  split; [exact H|].
  destruct (turns_cell_tells_outcomes_apart g (with_row 4 g) H) as (_ & _ & Hr).
  by apply Hr.
Defined.
